(** * KRA API proxy: token cache and request forwarding

    A shallow embedding of [kra_api/utils.py] ([fetch_kra_token],
    [call_kra_endpoint]) and of [GetTokenView.post] from [kra_api/views.py],
    with the library calls they make ([requests], the Django cache,
    [json], [str.strip]) modelled next to them.

    Conventions of the embedding:
    - a Python [str] is the list of its code points ([pystr]);
    - a Python value that can travel as a token or as a JSON body is a
      [json];
    - the cache, the clock and the network live in a [World] that every
      effectful function reads and returns;
    - a raised exception is a value of [exn], one constructor per [raise]
      site of the source;
    - [print] calls write to standard output only and are left out. *)

From Stdlib Require Import ZArith NArith Ascii String List Lia Bool.
From stdpp Require Import base option list gmap.

Set Warnings "-register-all".
Local Open Scope Z_scope.

(** ** Python strings *)

Abbreviation pystr := (list N).

(** The [str] of a literal of the source. *)
Definition str (s : string) : pystr := map N_of_ascii (list_ascii_of_string s).
Arguments str s : simpl never.

(** The code point of a one-character literal. *)
Definition ch (a : ascii) : N := N_of_ascii a.

Definition dquote : N := 34%N.
Definition backslash : N := 92%N.

(** [str.isspace] for one character: the code points CPython treats as
    whitespace, which are the ones [str.strip()] removes. *)
Definition py_isspace (c : N) : bool :=
  ((9 <=? c) && (c <=? 13) || (28 <=? c) && (c <=? 32)
   || (c =? 133) || (c =? 160) || (c =? 5760)
   || (8192 <=? c) && (c <=? 8202)
   || (c =? 8232) || (c =? 8233) || (c =? 8239) || (c =? 8287)
   || (c =? 12288))%N.

Fixpoint lstrip (s : pystr) : pystr :=
  match s with
  | c :: r => if py_isspace c then lstrip r else s
  | [] => []
  end.

Definition rstrip (s : pystr) : pystr := rev (lstrip (rev s)).

(** [s.strip()] *)
Definition strip (s : pystr) : pystr := rstrip (lstrip s).

(** [str(n)] for an integer. *)
Definition digit_char (d : N) : N := (48 + d)%N.

Fixpoint str_of_pos_fuel (fuel : nat) (n : N) (acc : pystr) : pystr :=
  match fuel with
  | O => acc
  | S f =>
      let acc' := digit_char (n mod 10) :: acc in
      if (n / 10 =? 0)%N then acc' else str_of_pos_fuel f (n / 10)%N acc'
  end.

Definition str_of_N (n : N) : pystr := str_of_pos_fuel (S (N.to_nat (N.log2 n))) n [].

Definition str_of_Z (z : Z) : pystr :=
  if z <? 0 then ch "-" :: str_of_N (Z.to_N (- z)) else str_of_N (Z.to_N z).

(** ** JSON values, as [json.loads] builds them *)

Inductive json : Type :=
| JNull                                   (* None *)
| JBool (b : bool)                        (* True / False *)
| JInt (n : Z)                            (* int *)
| JFloat (neg : bool) (digits : N) (exp10 : Z)
    (* float: the double nearest to (-1)^neg * digits * 10^exp10 *)
| JNaN                                    (* float('nan') *)
| JInf (neg : bool)                       (* float('inf'), float('-inf') *)
| JStr (s : pystr)                        (* str *)
| JArr (items : list json)                (* list *)
| JObj (members : list (pystr * json)).   (* dict, in document order *)

(** A decimal literal converts to the double 0.0 exactly when its value is
    at most 2^-1075, half of the least positive double (ties go to even). *)
Definition float_is_zero (digits : N) (exp10 : Z) : bool :=
  if (digits =? 0)%N then true
  else if 0 <=? exp10 then false
  else Z.of_N digits * 2 ^ 1075 <=? 10 ^ (- exp10).

(** Truth value of a Python object, as [if x:] and [not x] test it. *)
Definition truthy (v : json) : bool :=
  match v with
  | JNull => false
  | JBool b => b
  | JInt n => negb (n =? 0)
  | JFloat _ d e => negb (float_is_zero d e)
  | JNaN => true
  | JInf _ => true
  | JStr s => match s with [] => false | _ => true end
  | JArr l => match l with [] => false | _ => true end
  | JObj m => match m with [] => false | _ => true end
  end.

Definition pystr_eqb (a b : pystr) : bool := bool_decide (a = b).

(** [d.get(key)] on the dict built from the member list: a key that occurs
    more than once keeps its last value. *)
Fixpoint dict_get (key : pystr) (members : list (pystr * json)) : option json :=
  match members with
  | [] => None
  | (k, v) :: rest =>
      match dict_get key rest with
      | Some v' => Some v'
      | None => if pystr_eqb k key then Some v else None
      end
  end.

(** ** [json.loads]

    The decoder follows CPython's scanner: [scan_once] dispatches on the
    next character, [scan_string] reads a string after its opening quote,
    [match_number] is the number pattern (an optional minus sign, then 0
    or a digit string that does not start with 0, then an optional
    fraction and an optional exponent), and objects and arrays loop over
    their members. A decoding error ([JSONDecodeError]) is [None]. *)

Definition json_ws (c : N) : bool :=
  ((c =? 32) || (c =? 9) || (c =? 10) || (c =? 13))%N.

Fixpoint skip_ws (s : pystr) : pystr :=
  match s with
  | c :: r => if json_ws c then skip_ws r else s
  | [] => []
  end.

(** [s[idx:idx+len(lit)] == lit], returning what follows. *)
Fixpoint strip_prefix (lit s : pystr) : option pystr :=
  match lit, s with
  | [], _ => Some s
  | a :: lit', b :: s' => if (a =? b)%N then strip_prefix lit' s' else None
  | _ :: _, [] => None
  end.

Definition is_digit (c : N) : bool := ((48 <=? c) && (c <=? 57))%N.

Definition hex_val (c : N) : option N :=
  if is_digit c then Some (c - 48)%N
  else if ((97 <=? c) && (c <=? 102))%N then Some (c - 87)%N
  else if ((65 <=? c) && (c <=? 70))%N then Some (c - 55)%N
  else None.

Definition hex4 (a b c d : N) : option N :=
  match hex_val a, hex_val b, hex_val c, hex_val d with
  | Some x, Some y, Some z, Some w => Some (((x * 16 + y) * 16 + z) * 16 + w)%N
  | _, _, _, _ => None
  end.

(** The character a one-letter escape stands for. *)
Definition simple_escape (e : N) : option N :=
  if (e =? dquote)%N then Some dquote
  else if (e =? backslash)%N then Some backslash
  else if (e =? ch "/")%N then Some (ch "/")
  else if (e =? ch "b")%N then Some 8%N
  else if (e =? ch "f")%N then Some 12%N
  else if (e =? ch "n")%N then Some 10%N
  else if (e =? ch "r")%N then Some 13%N
  else if (e =? ch "t")%N then Some 9%N
  else None.

Definition is_high_surrogate (u : N) : bool := ((55296 <=? u) && (u <=? 56319))%N.
Definition is_low_surrogate (u : N) : bool := ((56320 <=? u) && (u <=? 57343))%N.
Definition join_surrogates (hi lo : N) : N :=
  (65536 + ((hi - 55296) * 1024 + (lo - 56320)))%N.

Definition push_char (c : N) (r : option (pystr * pystr)) : option (pystr * pystr) :=
  match r with
  | Some (x, rest) => Some (c :: x, rest)
  | None => None
  end.

(** The string whose opening quote has just been read (strict mode: a raw
    control character is an error). *)
Fixpoint scan_string (s : pystr) : option (pystr * pystr) :=
  match s with
  | [] => None
  | c :: r =>
      if (c =? dquote)%N then Some ([], r)
      else if (c =? backslash)%N then
        match r with
        | [] => None
        | e :: r1 =>
            if (e =? ch "u")%N then
              match r1 with
              | h1 :: h2 :: h3 :: h4 :: r2 =>
                  match hex4 h1 h2 h3 h4 with
                  | None => None
                  | Some u =>
                      match r2 with
                      | b :: v :: g1 :: g2 :: g3 :: g4 :: r3 =>
                          if is_high_surrogate u && (b =? backslash)%N && (v =? ch "u")%N then
                            match hex4 g1 g2 g3 g4 with
                            | None => None
                            | Some u2 =>
                                if is_low_surrogate u2
                                then push_char (join_surrogates u u2) (scan_string r3)
                                else push_char u (scan_string r2)
                            end
                          else push_char u (scan_string r2)
                      | _ => push_char u (scan_string r2)
                      end
                  end
              | _ => None
              end
            else
              match simple_escape e with
              | Some x => push_char x (scan_string r1)
              | None => None
              end
        end
      else if (c <=? 31)%N then None
      else push_char c (scan_string r)
  end.

Fixpoint span_digits (s : pystr) : pystr * pystr :=
  match s with
  | c :: r =>
      if is_digit c then let '(ds, rest) := span_digits r in (c :: ds, rest)
      else ([], s)
  | [] => ([], [])
  end.

Definition digits_val (ds : pystr) : N :=
  fold_left (fun acc d => (acc * 10 + (d - 48))%N) ds 0%N.

(** The optional fraction: a dot and at least one digit. *)
Definition match_frac (s : pystr) : pystr * pystr :=
  match s with
  | c :: r =>
      if (c =? ch ".")%N then
        match span_digits r with
        | ([], _) => ([], s)
        | (ds, rest) => (ds, rest)
        end
      else ([], s)
  | [] => ([], s)
  end.

(** The optional exponent (e or E, an optional sign, at least one digit):
    its value when it is there, and the rest. *)
Definition match_exp (s : pystr) : option Z * pystr :=
  match s with
  | c :: r =>
      if ((c =? ch "e") || (c =? ch "E"))%N then
        let '(neg, r1) :=
          match r with
          | sg :: r' =>
              if (sg =? ch "-")%N then (true, r')
              else if (sg =? ch "+")%N then (false, r')
              else (false, r)
          | [] => (false, r)
          end in
        match span_digits r1 with
        | ([], _) => (None, s)
        | (ds, rest) =>
            let v := Z.of_N (digits_val ds) in
            (Some (if neg then - v else v), rest)
        end
      else (None, s)
  | [] => (None, s)
  end.

(** The optional minus sign. *)
Definition match_sign (s : pystr) : bool * pystr :=
  match s with
  | c :: r => if (c =? ch "-")%N then (true, r) else (false, s)
  | [] => (false, s)
  end.

(** The integer part: 0 alone, or a digit string that starts with 1 to 9. *)
Definition match_int (s : pystr) : option (pystr * pystr) :=
  match s with
  | [] => None
  | c :: r =>
      if (c =? ch "0")%N then Some ([c], r)
      else if is_digit c then let '(ds, rest) := span_digits r in Some (c :: ds, rest)
      else None
  end.

(** An int when there is neither fraction nor exponent, a float otherwise. *)
Definition number_value (neg : bool) (ids fds : pystr) (ex : option Z) : json :=
  match fds, ex with
  | [], None =>
      let v := Z.of_N (digits_val ids) in JInt (if neg then - v else v)
  | _, _ =>
      JFloat neg (digits_val (ids ++ fds)) (default 0 ex - Z.of_nat (length fds))
  end.

Definition match_number (s : pystr) : option (json * pystr) :=
  let '(neg, s1) := match_sign s in
  match match_int s1 with
  | None => None
  | Some (ids, r1) =>
      let '(fds, r2) := match_frac r1 in
      let '(ex, r3) := match_exp r2 in
      Some (number_value neg ids fds ex, r3)
  end.

(** Constants and numbers: what [scan_once] tries when the next character
    opens neither a string, an object nor an array. *)
Definition scan_atom (s : pystr) : option (json * pystr) :=
  match strip_prefix (str "null") s with
  | Some r => Some (JNull, r)
  | None =>
  match strip_prefix (str "true") s with
  | Some r => Some (JBool true, r)
  | None =>
  match strip_prefix (str "false") s with
  | Some r => Some (JBool false, r)
  | None =>
  match match_number s with
  | Some x => Some x
  | None =>
  match strip_prefix (str "NaN") s with
  | Some r => Some (JNaN, r)
  | None =>
  match strip_prefix (str "Infinity") s with
  | Some r => Some (JInf false, r)
  | None =>
  match strip_prefix (str "-Infinity") s with
  | Some r => Some (JInf true, r)
  | None => None
  end end end end end end end.

Fixpoint scan_once (fuel : nat) (s : pystr) {struct fuel} : option (json * pystr) :=
  match fuel with
  | O => None
  | S f =>
      match s with
      | [] => None
      | c :: r =>
          if (c =? dquote)%N then
            match scan_string r with
            | Some (x, rest) => Some (JStr x, rest)
            | None => None
            end
          else if (c =? ch "{")%N then
            match skip_ws r with
            | c2 :: r2 =>
                if (c2 =? ch "}")%N then Some (JObj [], r2)
                else
                  match parse_members f (skip_ws r) with
                  | Some (kvs, rest) => Some (JObj kvs, rest)
                  | None => None
                  end
            | [] => None
            end
          else if (c =? ch "[")%N then
            match skip_ws r with
            | c2 :: r2 =>
                if (c2 =? ch "]")%N then Some (JArr [], r2)
                else
                  match parse_elems f (skip_ws r) with
                  | Some (vs, rest) => Some (JArr vs, rest)
                  | None => None
                  end
            | [] => None
            end
          else scan_atom s
      end
  end

(** Members of an object, from the quote that opens the next key. *)
with parse_members (fuel : nat) (s : pystr) {struct fuel}
  : option (list (pystr * json) * pystr) :=
  match fuel with
  | O => None
  | S f =>
      match s with
      | c :: r =>
          if (c =? dquote)%N then
            match scan_string r with
            | None => None
            | Some (key, r1) =>
                match skip_ws r1 with
                | c2 :: r2 =>
                    if (c2 =? ch ":")%N then
                      match scan_once f (skip_ws r2) with
                      | None => None
                      | Some (v, r3) =>
                          match skip_ws r3 with
                          | c3 :: r4 =>
                              if (c3 =? ch "}")%N then Some ([(key, v)], r4)
                              else if (c3 =? ch ",")%N then
                                match parse_members f (skip_ws r4) with
                                | Some (kvs, rest) => Some ((key, v) :: kvs, rest)
                                | None => None
                                end
                              else None
                          | [] => None
                          end
                      end
                    else None
                | [] => None
                end
            end
          else None
      | [] => None
      end
  end

(** Items of an array, from the first character of the next item. *)
with parse_elems (fuel : nat) (s : pystr) {struct fuel}
  : option (list json * pystr) :=
  match fuel with
  | O => None
  | S f =>
      match scan_once f s with
      | None => None
      | Some (v, r1) =>
          match skip_ws r1 with
          | c :: r2 =>
              if (c =? ch "]")%N then Some ([v], r2)
              else if (c =? ch ",")%N then
                match parse_elems f (skip_ws r2) with
                | Some (vs, rest) => Some (v :: vs, rest)
                | None => None
                end
              else None
          | [] => None
          end
      end
  end.

(** A text that starts with the byte-order mark U+FEFF. *)
Definition has_bom (s : pystr) : bool :=
  match s with
  | c :: _ => (c =? 65279)%N
  | [] => false
  end.

(** [json.loads(s)]: no byte-order mark, one value, nothing but whitespace
    after it. The scanner's fuel is spent one unit per nested call, and two
    units per character of [s] are more than any chain of calls uses
    ([json_loads_fuel] below). *)
Definition json_loads (s : pystr) : option json :=
  if has_bom s then None
  else
    match scan_once (S (2 * length s)) (skip_ws s) with
    | Some (v, rest) =>
        match skip_ws rest with
        | [] => Some v
        | _ :: _ => None
        end
    | None => None
    end.

(** ** HTTP, as [requests] shows it to the source *)

Record Response : Type := {
  status_code : Z;
  headers : list (pystr * pystr);   (* response.headers, names unique *)
  text : pystr;                     (* response.text *)
}.

(** [response.ok]: [raise_for_status()] raises for 400 <= status < 600. *)
Definition ok (r : Response) : bool :=
  negb ((400 <=? status_code r) && (status_code r <? 600)).

Definition lower_char (c : N) : N :=
  if ((65 <=? c) && (c <=? 90))%N then (c + 32)%N else c.

Definition lower (s : pystr) : pystr := map lower_char s.

(** [response.headers.get(name, default)]: header names compare without
    regard to case. *)
Fixpoint headers_get (name default : pystr) (hs : list (pystr * pystr)) : pystr :=
  match hs with
  | [] => default
  | (k, v) :: rest =>
      if pystr_eqb (lower k) (lower name) then v else headers_get name default rest
  end.

(** The [Authorization] header value [f'Bearer {token}']. *)
Inductive Authorization : Type :=
| Bearer (token : json).

(** The [headers] dict built by [call_kra_endpoint]. *)
Record RequestHeaders : Type := {
  content_type : pystr;
  authorization : Authorization;
  accept : pystr;
}.

(** What goes out on the wire, with the keyword arguments of the call. *)
Inductive Request : Type :=
| HttpGet (url : pystr) (params : list (pystr * pystr)) (auth : pystr * pystr)
          (verify : bool)
| HttpPost (url : pystr) (payload : json) (hdrs : RequestHeaders)
           (verify : bool) (timeout : Z).

(** What comes back: a response, [requests.Timeout], or another
    [requests.RequestException]; each with its [str(e)]. *)
Inductive Reply : Type :=
| Responded (r : Response)
| TimedOut (msg : pystr)
| Broken (msg : pystr).

(** One exchange: the reply and the seconds it took. *)
Record Exchange : Type := {
  reply : Reply;
  elapsed : N;
}.

(** ** Exceptions *)

Inductive exn : Type :=
(* raised by the libraries *)
| RequestsTimeout (msg : pystr)        (* requests.Timeout *)
| RequestsError (msg : pystr)          (* any other requests.RequestException *)
| JSONDecodeError                      (* response.json() on a body that is not JSON *)
| AttributeError                       (* .get on a value that is not a dict *)
| UnboundLocalError                    (* a local read before it is assigned *)
(* raised by the source, each an Exception(message) *)
| InvalidAppSelection (app_name : pystr)   (* "Invalid app selection: {app_name}" *)
| TokenRequestRejected (body : pystr)      (* "Token request failed: {response.text}" *)
| TokenRequestFailed (cause : exn)         (* "Token request failed: {str(e)}" *)
| FailedToGetAccessToken (cause : exn)     (* "Failed to get access token: {str(e)}" *)
| MaximumRetriesReached                    (* "Maximum retries reached, request timed out" *)
| UpstreamError (error_details : pystr)    (* Exception(error_details) *)
| RequestFailed (cause : exn).             (* "Request failed: {str(e)}" *)

(** [except requests.Timeout] *)
Definition is_Timeout (e : exn) : bool :=
  match e with
  | RequestsTimeout _ => true
  | _ => false
  end.

(** [except requests.RequestException]; the decoding error of
    [response.json()] is one. *)
Definition is_RequestException (e : exn) : bool :=
  match e with
  | RequestsTimeout _ | RequestsError _ | JSONDecodeError => true
  | _ => false
  end.

(** [except Exception] *)
Definition is_Exception (e : exn) : bool := true.

(** ** The world: settings, cache, clock and network *)

(** One entry of [settings.KRA_APPS]. *)
Record AppConfig : Type := {
  token_url : pystr;
  consumer_key : pystr;
  consumer_secret : pystr;
}.

Record World : Type := {
  now : Z;                               (* time.time(), in seconds *)
  cache : gmap pystr (json * Z);         (* key to value and expiry time *)
  KRA_APPS : gmap pystr AppConfig;       (* settings.KRA_APPS *)
  sent : list Request;                   (* requests issued so far, oldest first *)
  get_replies : nat -> Exchange;         (* what the next GETs will meet *)
  post_replies : nat -> Exchange;        (* what the next POSTs will meet *)
}.

Inductive result (A : Type) : Type :=
| Return (a : A)
| Raise (e : exn).
Arguments Return {A} a.
Arguments Raise {A} e.

(** Computations that read and change the world and may raise. *)
Definition M (A : Type) : Type := World -> result A * World.

Definition ret {A : Type} (a : A) : M A := fun w => (Return a, w).

Definition raise {A : Type} (e : exn) : M A := fun w => (Raise e, w).

Definition bind {A B : Type} (m : M A) (k : A -> M B) : M B :=
  fun w =>
    match m w with
    | (Return a, w') => k a w'
    | (Raise e, w') => (Raise e, w')
    end.

Notation "x <- m ;; k" := (bind m (fun x => k))
  (at level 100, m at next level, right associativity).

(** [try: body / except <catches> as e: handler e] *)
Definition try_except {A : Type} (body : M A) (catches : exn -> bool)
    (handler : exn -> M A) : M A :=
  fun w =>
    match body w with
    | (Return a, w') => (Return a, w')
    | (Raise e, w') => if catches e then handler e w' else (Raise e, w')
    end.

(** [cache.get(key)]: the value, unless the key is missing or expired. *)
Definition cache_get (key : pystr) : M (option json) :=
  fun w =>
    match cache w !! key with
    | Some (v, expires_at) =>
        if now w <? expires_at then (Return (Some v), w) else (Return None, w)
    | None => (Return None, w)
    end.

(** The world after [cache.set(key, value, timeout=timeout)]. *)
Definition store (key : pystr) (value : json) (timeout : Z) (w : World) : World :=
  {| now := now w;
     cache := <[key := (value, now w + timeout)]> (cache w);
     KRA_APPS := KRA_APPS w;
     sent := sent w;
     get_replies := get_replies w;
     post_replies := post_replies w |}.

(** [cache.set(key, value, timeout=timeout)] *)
Definition cache_set (key : pystr) (value : json) (timeout : Z) : M unit :=
  fun w => (Return tt, store key value timeout w).

(** [settings.KRA_APPS.get(app_name)] *)
Definition settings_get (app_name : pystr) : M (option AppConfig) :=
  fun w => (Return (KRA_APPS w !! app_name), w).

Definition raise_or_respond (r : Reply) : result Response :=
  match r with
  | Responded resp => Return resp
  | TimedOut msg => Raise (RequestsTimeout msg)
  | Broken msg => Raise (RequestsError msg)
  end.

(** The world after a GET went out and met the next reply: the request is
    on record, the reply is used up, the clock has moved. *)
Definition answer_get (rq : Request) (w : World) : World :=
  {| now := now w + Z.of_N (elapsed (get_replies w 0%nat));
     cache := cache w;
     KRA_APPS := KRA_APPS w;
     sent := sent w ++ [rq];
     get_replies := fun n => get_replies w (S n);
     post_replies := post_replies w |}.

(** The same for a POST. *)
Definition answer_post (rq : Request) (w : World) : World :=
  {| now := now w + Z.of_N (elapsed (post_replies w 0%nat));
     cache := cache w;
     KRA_APPS := KRA_APPS w;
     sent := sent w ++ [rq];
     get_replies := get_replies w;
     post_replies := fun n => post_replies w (S n) |}.

(** [requests.get(url, params=..., auth=..., verify=...)] *)
Definition requests_get (url : pystr) (params : list (pystr * pystr))
    (auth : pystr * pystr) (verify : bool) : M Response :=
  fun w =>
    (raise_or_respond (reply (get_replies w 0%nat)),
     answer_get (HttpGet url params auth verify) w).

(** [requests.post(url, json=..., headers=..., verify=..., timeout=...)] *)
Definition requests_post (url : pystr) (payload : json) (hdrs : RequestHeaders)
    (verify : bool) (timeout : Z) : M Response :=
  fun w =>
    (raise_or_respond (reply (post_replies w 0%nat)),
     answer_post (HttpPost url payload hdrs verify timeout) w).

(** [response.json()] *)
Definition response_json (r : Response) : M json :=
  match json_loads (text r) with
  | Some v => ret v
  | None => raise JSONDecodeError
  end.

(** [token_data.get(key)]: only a dict has the method; a missing key gives
    [None]. *)
Definition get_method (token_data : json) (key : pystr) : M json :=
  match token_data with
  | JObj members => ret (default JNull (dict_get key members))
  | _ => raise AttributeError
  end.

(** ** [utils.fetch_kra_token] *)

Definition fetch_kra_token (app_name : pystr) (force_refresh : bool) : M json :=
  let cache_key := str "kra_token_" ++ app_name in
  let request_token : M json :=
    app_config <- settings_get app_name ;;
    match app_config with
    | None => raise (InvalidAppSelection app_name)
    | Some app_config =>
        try_except
          (response <- requests_get (token_url app_config)
                         [(str "grant_type", str "client_credentials")]
                         (consumer_key app_config, consumer_secret app_config)
                         false ;;
           if negb (ok response) then raise (TokenRequestRejected (text response))
           else
             try_except
               (token_data <- response_json response ;;
                access_token <- get_method token_data (str "access_token") ;;
                let access_token :=
                  if negb (truthy access_token) then JStr (strip (text response))
                  else access_token in
                _ <- cache_set cache_key access_token 3600 ;;
                ret access_token)
               is_Exception
               (fun e => raise (FailedToGetAccessToken e)))
          is_RequestException
          (fun e => raise (TokenRequestFailed e))
    end in
  if negb force_refresh then
    token <- cache_get cache_key ;;
    if truthy (default JNull token) then ret (default JNull token)
    else request_token
  else request_token.

(** ** [utils.call_kra_endpoint] *)

Definition nl : pystr := [10%N].
Definition dq : pystr := [dquote].
Definition spaces (n : nat) : pystr := repeat 32%N n.

(** The message built for a response that is not [ok]. *)
Definition error_details (response : Response) : pystr :=
  (nl ++ spaces 8 ++ str "{" ++ nl ++ spaces 10 ++ dq ++ str "errorResponse" ++ dq
      ++ str ": {" ++ nl)
  ++ (spaces 12 ++ dq ++ str "requestId" ++ dq ++ str ": " ++ dq
      ++ headers_get (str "x-request-id") (str "unknown") (headers response)
      ++ dq ++ str "," ++ nl)
  ++ (spaces 12 ++ dq ++ str "code" ++ dq ++ str ": " ++ dq
      ++ str_of_Z (status_code response) ++ dq ++ str "," ++ nl)
  ++ (spaces 12 ++ dq ++ str "message" ++ dq ++ str ": " ++ dq
      ++ text response ++ dq ++ str "," ++ nl)
  ++ (spaces 12 ++ dq ++ str "timestamp" ++ dq ++ str ": " ++ dq
      ++ headers_get (str "date") (str "unknown") (headers response)
      ++ dq ++ nl)
  ++ (spaces 10 ++ str "}" ++ nl ++ spaces 8 ++ str "}").

(** The locals of [call_kra_endpoint] that the loop reads and writes. *)
Record Locals : Type := {
  token : json;
  hdrs_of : RequestHeaders;          (* headers *)
  retries : Z;
  response : option Response;        (* None until the first assignment *)
}.

Definition set_response (r : Response) (st : Locals) : Locals :=
  {| token := token st; hdrs_of := hdrs_of st; retries := retries st;
     response := Some r |}.

Definition set_retries (n : Z) (st : Locals) : Locals :=
  {| token := token st; hdrs_of := hdrs_of st; retries := n;
     response := response st |}.

(** [token = ...; headers['Authorization'] = f'Bearer {token}'] *)
Definition set_token (t : json) (st : Locals) : Locals :=
  {| token := t;
     hdrs_of := {| content_type := content_type (hdrs_of st);
                   authorization := Bearer t;
                   accept := accept (hdrs_of st) |};
     retries := retries st;
     response := response st |}.

(** How one pass through the loop body ends. *)
Inductive Pass : Type :=
| Continue (st : Locals)     (* back to the loop test *)
| Break (st : Locals).       (* out of the loop *)

(** The body of [while retries < max_retries], one pass. *)
Definition loop_body (url : pystr) (payload : json) (app_name : pystr)
    (max_retries timeout : Z) (st : Locals) : M Pass :=
  try_except
    (r <- requests_post url payload (hdrs_of st) false timeout ;;
     let st := set_response r st in
     if status_code r =? 401 then
       t <- fetch_kra_token app_name true ;;
       ret (Continue (set_token t st))
     else if status_code r =? 504 then
       let st := set_retries (retries st + 1) st in
       if retries st <? max_retries then ret (Continue st) else ret (Break st)
     else ret (Break st))
    is_Timeout
    (fun _ =>
       let st := set_retries (retries st + 1) st in
       if retries st >=? max_retries then raise MaximumRetriesReached
       else ret (Continue st)).

(** Where the loop stands when it is observed. *)
Inductive LoopEnd : Type :=
| Exited (st : Locals)       (* the loop is over: test false, or break *)
| Raised (e : exn)           (* an exception left the loop *)
| Running (st : Locals).     (* still looping after [fuel] passes *)

(** [while retries < max_retries: body], observed after at most [fuel]
    passes. *)
Fixpoint while_loop (fuel : nat) (max_retries : Z) (body : Locals -> M Pass)
    (st : Locals) (w : World) : LoopEnd * World :=
  if retries st <? max_retries then
    match fuel with
    | O => (Running st, w)
    | S fuel' =>
        match body st w with
        | (Return (Continue st'), w') => while_loop fuel' max_retries body st' w'
        | (Return (Break st'), w') => (Exited st', w')
        | (Raise e, w') => (Raised e, w')
        end
    end
  else (Exited st, w).

(** The locals when the loop is entered. *)
Definition initial_locals (t : json) : Locals :=
  {| token := t;
     hdrs_of := {| content_type := str "application/json";
                   authorization := Bearer t;
                   accept := str "application/json" |};
     retries := 0;
     response := None |}.

(** What follows the loop: the error for a response that is not [ok], the
    decoded body otherwise. [response] is unbound if no pass assigned it. *)
Definition after_loop (st : Locals) : M json :=
  match response st with
  | None => raise UnboundLocalError
  | Some r =>
      if negb (ok r) then raise (UpstreamError (error_details r))
      else response_json r
  end.

(** [except requests.RequestException as e] around the body of the
    function. *)
Definition request_failed (r : result json) : result json :=
  match r with
  | Raise e => if is_RequestException e then Raise (RequestFailed e) else Raise e
  | Return v => Return v
  end.

(** [call_kra_endpoint(url, payload, app_name, max_retries, timeout)],
    observed after at most [fuel] passes of its loop: [None] while the loop
    is still running. *)
Definition call_kra_endpoint (fuel : nat) (url : pystr) (payload : json)
    (app_name : pystr) (max_retries timeout : Z) (w : World)
  : option (result json) * World :=
  match fetch_kra_token app_name false w with
  | (Raise e, w1) => (Some (Raise e), w1)
  | (Return t, w1) =>
      match while_loop fuel max_retries
              (loop_body url payload app_name max_retries timeout)
              (initial_locals t) w1 with
      | (Running _, w2) => (None, w2)
      | (Raised e, w2) => (Some (request_failed (Raise e)), w2)
      | (Exited st, w2) =>
          let '(r, w3) := after_loop st w2 in (Some (request_failed r), w3)
      end
  end.

(** The defaults of the signature: [max_retries=5, timeout=60]. *)
Definition default_max_retries : Z := 5.
Definition default_timeout : Z := 60.

(** ** [views.GetTokenView] *)

(** [TokenRequestSerializer]: field [app], a choice between "app1" and
    "app2" that defaults to "app1". [None] when the data is not valid. *)
Definition TokenRequestSerializer (data : json) : option pystr :=
  match data with
  | JObj members =>
      match dict_get (str "app") members with
      | None => Some (str "app1")
      | Some (JStr a) =>
          if pystr_eqb a (str "app1") || pystr_eqb a (str "app2") then Some a
          else None
      | Some _ => None
      end
  | _ => None
  end.

(** The three responses of the view. *)
Inductive ViewResponse : Type :=
| Ok200 (access_token : json)     (* {"access_token": token}, 200 *)
| BadRequest400                   (* {"error": serializer.errors}, 400 *)
| ServerError500 (e : exn).       (* {"error": str(e)}, 500 *)

(** [GetTokenView.post] *)
Definition GetTokenView_post (data : json) (w : World) : ViewResponse * World :=
  match TokenRequestSerializer data with
  | None => (BadRequest400, w)
  | Some app =>
      match fetch_kra_token app true w with
      | (Return t, w') => (Ok200 t, w')
      | (Raise e, w') => (ServerError500 e, w')
      end
  end.

(** ** [serializers.py]: the request bodies of the PIN views

    The fields are declared in the source; what a field accepts is the
    framework's rule, written out here. A field's error takes the whole
    serializer to [None], which the views answer with 400. *)

Section Serializers.

(** [str(x)] for a float [x], given by its sign, digits and exponent: the
    interpreter's shortest round-trip form, taken as it comes. *)
Variable float_str : bool -> N -> Z -> pystr.

(** [str(data)] for the values a CharField coerces: str, int and float;
    bool, None, list and dict are refused. *)
Definition field_text (data : json) : option pystr :=
  match data with
  | JStr s => Some s
  | JInt n => Some (str_of_Z n)
  | JFloat neg digits exp10 => Some (float_str neg digits exp10)
  | JNaN => Some (str "nan")
  | JInf neg => Some (if neg then str "-inf" else str "inf")
  | JNull | JBool _ | JArr _ | JObj _ => None
  end.

(** NUL and surrogate code points, which the validators of a CharField
    prohibit. *)
Definition prohibited_char (c : N) : bool :=
  ((c =? 0) || (55296 <=? c) && (c <=? 57343))%N.

(** [CharField(max_length=...)], required, on the value found under the
    field's name: the text is trimmed, must not be blank, must not be
    longer than [max_length] and must hold no prohibited character. *)
Definition CharField (max_length : nat) (data : option json) : option pystr :=
  match data with
  | None => None
  | Some d =>
      match field_text d with
      | None => None
      | Some s =>
          let value := strip s in
          match value with
          | [] => None
          | _ :: _ =>
              if (length value <=? max_length)%nat
                 && negb (existsb prohibited_char value)
              then Some value
              else None
          end
      end
  end.

(** [ChoiceField(choices=["app1", "app2"], default="app1")] on the value
    found under the field's name. *)
Definition AppChoiceField (data : option json) : option pystr :=
  match data with
  | None => Some (str "app1")
  | Some (JStr a) =>
      if pystr_eqb a (str "app1") || pystr_eqb a (str "app2") then Some a
      else None
  | Some _ => None
  end.

(** Validated data of [PinByIDRequestSerializer]. *)
Record PinByID : Type := {
  id_app : pystr;
  TaxpayerType : pystr;
  TaxpayerID : pystr;
}.

Definition PinByIDRequestSerializer (data : json) : option PinByID :=
  match data with
  | JObj members =>
      match AppChoiceField (dict_get (str "app") members),
            CharField 10 (dict_get (str "TaxpayerType") members),
            CharField 64 (dict_get (str "TaxpayerID") members) with
      | Some a, Some ttype, Some tid =>
          Some {| id_app := a; TaxpayerType := ttype; TaxpayerID := tid |}
      | _, _, _ => None
      end
  | _ => None
  end.

(** Validated data of [PinByPinRequestSerializer]. *)
Record PinByPin : Type := {
  pin_app : pystr;
  KRAPIN : pystr;
}.

Definition PinByPinRequestSerializer (data : json) : option PinByPin :=
  match data with
  | JObj members =>
      match AppChoiceField (dict_get (str "app") members),
            CharField 64 (dict_get (str "KRAPIN") members) with
      | Some a, Some pin => Some {| pin_app := a; KRAPIN := pin |}
      | _, _ => None
      end
  | _ => None
  end.

(** ** [views.PinByIDView] and [views.PinByPinView] *)

(** The two settings the views read with [getattr(settings, name, None)]. *)
Record UrlSettings : Type := {
  KRA_PIN_BY_ID_URL : option pystr;
  KRA_PIN_BY_PIN_URL : option pystr;
}.

(** [if not url]: the setting is missing or empty. *)
Definition configured (url : option pystr) : option pystr :=
  match url with
  | Some (c :: r) => Some (c :: r)
  | Some nil => None
  | None => None
  end.

(** The four responses of a PIN view. *)
Inductive PinResponse : Type :=
| Upstream200 (resp_json : json)     (* the upstream JSON, 200 *)
| Invalid400                         (* {"error": serializer.errors}, 400 *)
| NotConfigured500 (message : pystr) (* {"error": "... not configured"}, 500 *)
| Failed500 (e : exn).               (* {"error": str(e)}, 500 *)

(** What a view makes of [call_kra_endpoint(url, payload, app)], called
    with the defaults of its signature. *)
Definition forward (fuel : nat) (url : pystr) (payload : json) (app : pystr)
    (w : World) : option PinResponse * World :=
  match call_kra_endpoint fuel url payload app default_max_retries
          default_timeout w with
  | (None, w') => (None, w')
  | (Some (Return resp_json), w') => (Some (Upstream200 resp_json), w')
  | (Some (Raise e), w') => (Some (Failed500 e), w')
  end.

(** [PinByIDView.post], observed after at most [fuel] passes of the loop of
    [call_kra_endpoint]. *)
Definition PinByIDView_post (fuel : nat) (settings : UrlSettings) (data : json)
    (w : World) : option PinResponse * World :=
  match PinByIDRequestSerializer data with
  | None => (Some Invalid400, w)
  | Some validated =>
      let app := id_app validated in
      let payload := JObj [(str "TaxpayerType", JStr (TaxpayerType validated));
                           (str "TaxpayerID", JStr (TaxpayerID validated))] in
      match configured (KRA_PIN_BY_ID_URL settings) with
      | None =>
          (Some (NotConfigured500 (str "KRA_PIN_BY_ID_URL not configured")), w)
      | Some url => forward fuel url payload app w
      end
  end.

(** [PinByPinView.post], observed the same way. *)
Definition PinByPinView_post (fuel : nat) (settings : UrlSettings) (data : json)
    (w : World) : option PinResponse * World :=
  match PinByPinRequestSerializer data with
  | None => (Some Invalid400, w)
  | Some validated =>
      let app := pin_app validated in
      let payload := JObj [(str "KRAPIN", JStr (KRAPIN validated))] in
      match configured (KRA_PIN_BY_PIN_URL settings) with
      | None =>
          (Some (NotConfigured500 (str "KRA_PIN_BY_PIN_URL not configured")), w)
      | Some url => forward fuel url payload app w
      end
  end.

End Serializers.

(** ** Vocabulary of the statements *)

(** The cache key [fetch_kra_token] uses for an app. *)
Definition cache_key (app_name : pystr) : pystr := str "kra_token_" ++ app_name.

(** The GET that [fetch_kra_token] sends for an app configuration. *)
Definition token_request (cfg : AppConfig) : Request :=
  HttpGet (token_url cfg) [(str "grant_type", str "client_credentials")]
    (consumer_key cfg, consumer_secret cfg) false.

(** The POST that [call_kra_endpoint] sends while its token is [t]. *)
Definition api_request (url : pystr) (payload : json) (t : json) (timeout : Z)
  : Request :=
  HttpPost url payload
    {| content_type := str "application/json";
       authorization := Bearer t;
       accept := str "application/json" |}
    false timeout.

Definition is_post (rq : Request) : bool :=
  match rq with
  | HttpPost _ _ _ _ _ => true
  | HttpGet _ _ _ _ => false
  end.

(** Number of POSTs on record, and of GETs. *)
Definition posts_sent (w : World) : nat := length (List.filter is_post (sent w)).

Definition gets_sent (w : World) : nat :=
  length (List.filter (fun rq => negb (is_post rq)) (sent w)).

(** The POSTs sent again between two worlds: all of them but the first. *)
Definition reissues (before after : World) : nat :=
  (posts_sent after - posts_sent before - 1)%nat.

(** The spec's UpstreamAuthError: the failures [fetch_kra_token] raises
    about the answer of the token endpoint. *)
Definition UpstreamAuthError (e : exn) : bool :=
  match e with
  | TokenRequestRejected _ | TokenRequestFailed _ | FailedToGetAccessToken _ => true
  | _ => false
  end.

(** A reply of the token endpoint from which [fetch_kra_token] gets a
    token: a response that is [ok] and whose body decodes to a dict. *)
Definition usable_token_reply (x : Exchange) : Prop :=
  exists r members,
    reply x = Responded r /\ ok r = true /\ json_loads (text r) = Some (JObj members).

(** The token the cache would hand to [fetch_kra_token]: stored under the
    app's key, not expired, and true as [if token:] tests it. *)
Definition cached_token (app_name : pystr) (w : World) : option json :=
  match cache w !! cache_key app_name with
  | Some (v, expires_at) =>
      if (now w <? expires_at) && truthy v then Some v else None
  | None => None
  end.

(** The world [d] seconds later, nothing else having happened. *)
Definition later (d : Z) (w : World) : World :=
  {| now := now w + d;
     cache := cache w;
     KRA_APPS := KRA_APPS w;
     sent := sent w;
     get_replies := get_replies w;
     post_replies := post_replies w |}.

(** The world after the same POST went out [n] times in a row. *)
Fixpoint post_n (rq : Request) (n : nat) (w : World) : World :=
  match n with
  | O => w
  | S k => post_n rq k (answer_post rq w)
  end.

(** The layout of the message of an UpstreamError, around its four
    fields. *)
Definition error_payload (requestId code message timestamp : pystr) : pystr :=
  nl ++ spaces 8 ++ str "{" ++ nl
  ++ spaces 10 ++ dq ++ str "errorResponse" ++ dq ++ str ": {" ++ nl
  ++ spaces 12 ++ dq ++ str "requestId" ++ dq ++ str ": " ++ dq ++ requestId ++ dq
  ++ str "," ++ nl
  ++ spaces 12 ++ dq ++ str "code" ++ dq ++ str ": " ++ dq ++ code ++ dq
  ++ str "," ++ nl
  ++ spaces 12 ++ dq ++ str "message" ++ dq ++ str ": " ++ dq ++ message ++ dq
  ++ str "," ++ nl
  ++ spaces 12 ++ dq ++ str "timestamp" ++ dq ++ str ": " ++ dq ++ timestamp ++ dq
  ++ nl
  ++ spaces 10 ++ str "}" ++ nl ++ spaces 8 ++ str "}".

(** ** Sample data *)

Definition app1 : pystr := str "app1".

Definition app1_config : AppConfig :=
  {| token_url := str "https://kra.example/token";
     consumer_key := str "key";
     consumer_secret := str "secret" |}.

Definition pin_url : pystr := str "https://kra.example/checker/v1/pinbypin".

Definition pin_payload : json := JObj [(str "KRAPIN", JStr (str "A000000000Z"))].

Definition plain (status : Z) (body : pystr) : Response :=
  {| status_code := status; headers := []; text := body |}.

Definition answers (status : Z) (body : pystr) : Exchange :=
  {| reply := Responded (plain status body); elapsed := 1 |}.

Definition times_out : Exchange :=
  {| reply := TimedOut (str "Read timed out."); elapsed := 60 |}.

(** The body [{"access_token":"<t>"}]. *)
Definition token_body (t : pystr) : pystr :=
  str "{" ++ dq ++ str "access_token" ++ dq ++ str ":" ++ dq ++ t ++ dq ++ str "}".

(** The body [{"ok":true}]. *)
Definition ok_true_body : pystr := str "{" ++ dq ++ str "ok" ++ dq ++ str ":true}".

(** A world at time 1000 with one configured app. *)
Definition world (cached : gmap pystr (json * Z)) (gets posts : nat -> Exchange)
  : World :=
  {| now := 1000;
     cache := cached;
     KRA_APPS := {[ app1 := app1_config ]};
     sent := [];
     get_replies := gets;
     post_replies := posts |}.

(** A cache that holds token "T1" for app1 until time 4000. *)
Definition cache_T1 : gmap pystr (json * Z) :=
  {[ cache_key app1 := (JStr (str "T1"), 4000) ]}.

(** Worlds for the token endpoint: it answers 200 with an empty body, with
    the bare text abc123, with a fresh token "T2" while "T1" is cached, or
    with 500 while "T1" is cached. *)
Definition world_empty_body : World :=
  world ∅ (fun _ => answers 200 []) (fun _ => times_out).

Definition world_bare_token : World :=
  world ∅ (fun _ => answers 200 (str "abc123")) (fun _ => times_out).

Definition world_T1_then_T2 : World :=
  world cache_T1 (fun _ => answers 200 (token_body (str "T2"))) (fun _ => times_out).

Definition world_T1_endpoint_down : World :=
  world cache_T1 (fun _ => answers 500 (str "down")) (fun _ => times_out).

(** Worlds for the forwarder, all with "T1" cached: every POST times out
    ([world_T1_endpoint_down] above); every POST gets 401 while the token
    endpoint hands out "T2"; every POST gets 401 while the token endpoint
    is down; 401 then 200; 504 three times then 200; 403 with a request
    id. *)
Definition world_401_forever : World :=
  world cache_T1 (fun _ => answers 200 (token_body (str "T2")))
    (fun _ => answers 401 []).

Definition world_401_endpoint_down : World :=
  world cache_T1 (fun _ => answers 500 (str "down")) (fun _ => answers 401 []).

Definition world_401_then_200 : World :=
  world cache_T1 (fun _ => answers 200 (token_body (str "T2")))
    (fun k => match k with
              | O => answers 401 []
              | S _ => answers 200 ok_true_body
              end).

Definition world_504_504_504_200 : World :=
  world cache_T1 (fun _ => answers 500 (str "down"))
    (fun k => if (k <? 3)%nat then answers 504 [] else answers 200 ok_true_body).

Definition forbidden : Response :=
  {| status_code := 403;
     headers := [(str "X-Request-Id", str "req-7")];
     text := str "Forbidden" |}.

Definition world_403 : World :=
  world cache_T1 (fun _ => answers 500 (str "down"))
    (fun _ => {| reply := Responded forbidden; elapsed := 1 |}).

(** ** Scenarios of the upstream *)

(** Every POST runs into [requests.Timeout]. *)
Definition always_times_out (w : World) : Prop :=
  forall k, exists msg, reply (post_replies w k) = TimedOut msg.

(** Every POST is answered 401. *)
Definition always_401 (w : World) : Prop :=
  forall k, exists r, reply (post_replies w k) = Responded r /\ status_code r = 401.

(** The app is configured and the token endpoint keeps handing out
    tokens. *)
Definition tokens_flow (app_name : pystr) (w : World) : Prop :=
  (exists cfg, KRA_APPS w !! app_name = Some cfg) /\
  forall k, usable_token_reply (get_replies w k).

(** Literals of the source, evaluated: [str "null"] becomes its list of
    code points. *)
Ltac eval_lits :=
  repeat match goal with
  | |- context [str ?s] =>
      let v := eval vm_compute in (str s) in change (str s) with v
  | |- context [ch ?a] =>
      let v := eval vm_compute in (ch a) in change (ch a) with v
  end.

(** ** More scenarios and sample data *)

(** No POST is answered 401. *)
Definition never_401 (w : World) : Prop :=
  forall k r, reply (post_replies w k) = Responded r -> status_code r <> 401.

(** A reply that costs one retry: a timeout or a 504. *)
Definition transient (x : Exchange) : Prop :=
  (exists msg, reply x = TimedOut msg)
  \/ (exists r, reply x = Responded r /\ status_code r = 504).

(** The requests a call of [call_kra_endpoint] may send: the token request
    of the app's configuration, and the POST to [url] with [payload], the
    given timeout and a Bearer token that is not empty. *)
Definition expected_request (apps : gmap pystr AppConfig) (app url : pystr)
    (payload : json) (timeout : Z) (rq : Request) : Prop :=
  (exists cfg, apps !! app = Some cfg /\ rq = token_request cfg)
  \/ (exists t, truthy t = true /\ rq = api_request url payload t timeout).

(** Locals as the loop keeps them: the Authorization header carries the
    current token, and the token is not empty. *)
Definition locals_ok (st : Locals) : Prop :=
  truthy (token st) = true /\ hdrs_of st = hdrs_of (initial_locals (token st)).

Definition app2 : pystr := str "app2".

(** A world in which no app is configured, with "T1" cached for app1. *)
Definition world_no_apps : World :=
  {| now := 1000;
     cache := cache_T1;
     KRA_APPS := ∅;
     sent := [];
     get_replies := fun _ => answers 200 (token_body (str "T2"));
     post_replies := fun _ => times_out |}.

(** The token endpoint cannot be reached. *)
Definition world_endpoint_unreachable : World :=
  world cache_T1
    (fun _ => {| reply := Broken (str "Connection refused"); elapsed := 3 |})
    (fun _ => times_out).

(** The token endpoint answers with a JSON list. *)
Definition world_token_list : World :=
  world ∅ (fun _ => answers 200 (str "[1]")) (fun _ => times_out).

(** The first POST times out, the next ones cannot connect. *)
Definition world_timeout_then_refused : World :=
  world cache_T1 (fun _ => answers 500 (str "down"))
    (fun k => match k with
              | O => times_out
              | S _ => {| reply := Broken (str "Connection refused"); elapsed := 1 |}
              end).

(** The first POST times out, the next ones are answered 504. *)
Definition world_timeout_then_504 : World :=
  world cache_T1 (fun _ => answers 500 (str "down"))
    (fun k => match k with
              | O => times_out
              | S _ => answers 504 (str "Gateway Timeout")
              end).

(** Sample settings and request bodies for the views. *)
Definition urls_set : UrlSettings :=
  {| KRA_PIN_BY_ID_URL := Some (str "https://kra.example/checker/v1/pin");
     KRA_PIN_BY_PIN_URL := Some pin_url |}.

Definition urls_unset : UrlSettings :=
  {| KRA_PIN_BY_ID_URL := None; KRA_PIN_BY_PIN_URL := Some [] |}.

(** A stand-in for the float formatting that the sample bodies never
    reach. *)
Definition any_float_str : bool -> N -> Z -> pystr := fun _ _ _ => str "0.0".

(** [{"KRAPIN": " A000000000Z "}], with blanks around the PIN. *)
Definition pin_request : json :=
  JObj [(str "KRAPIN", JStr (str " A000000000Z "))].

(** [{"TaxpayerType": "KE", "TaxpayerID": 12345678, "note": "x"}]. *)
Definition id_request : json :=
  JObj [(str "TaxpayerType", JStr (str "KE"));
        (str "TaxpayerID", JInt 12345678);
        (str "note", JStr (str "x"))].

(** [{"app": "app3"}] *)
Definition app3_request : json := JObj [(str "app", JStr (str "app3"))].

(** "T1" is cached and the first POST is answered 200 with [{"ok":true}]. *)
Definition world_T1_200 : World :=
  world cache_T1 (fun _ => answers 200 (token_body (str "T2")))
    (fun _ => answers 200 ok_true_body).

(** * Properties *)

(** ** [fetch_kra_token], path by path *)

Lemma fetch_forced_eq app w cfg :
  KRA_APPS w !! app = Some cfg ->
  fetch_kra_token app true w =
    let w1 := answer_get (token_request cfg) w in
    match reply (get_replies w 0%nat) with
    | Responded r =>
        if ok r then
          match json_loads (text r) with
          | Some (JObj members) =>
              let a := default JNull (dict_get (str "access_token") members) in
              let t := if negb (truthy a) then JStr (strip (text r)) else a in
              (Return t, store (cache_key app) t 3600 w1)
          | Some _ => (Raise (FailedToGetAccessToken AttributeError), w1)
          | None => (Raise (FailedToGetAccessToken JSONDecodeError), w1)
          end
        else (Raise (TokenRequestRejected (text r)), w1)
    | TimedOut msg => (Raise (TokenRequestFailed (RequestsTimeout msg)), w1)
    | Broken msg => (Raise (TokenRequestFailed (RequestsError msg)), w1)
    end.
Proof.
  intros Hcfg.
  cbv beta iota zeta delta
    [fetch_kra_token bind try_except settings_get requests_get negb].
  rewrite Hcfg. unfold token_request, cache_key.
  destruct (reply (get_replies w 0%nat)) as [r|msg|msg]; simpl; try reflexivity.
  destruct (ok r); simpl; [|reflexivity].
  unfold response_json, bind.
  destruct (json_loads (text r)) as [v|]; simpl; [|reflexivity].
  destruct v; reflexivity.
Qed.

Lemma fetch_forced_unknown_app app w :
  KRA_APPS w !! app = None ->
  fetch_kra_token app true w = (Raise (InvalidAppSelection app), w).
Proof.
  intros Hcfg.
  cbv beta iota zeta delta [fetch_kra_token bind settings_get negb].
  rewrite Hcfg. reflexivity.
Qed.

Lemma fetch_unforced_eq app w :
  fetch_kra_token app false w =
    match cache w !! cache_key app with
    | Some (v, expires_at) =>
        if (now w <? expires_at) && truthy v then (Return v, w)
        else fetch_kra_token app true w
    | None => fetch_kra_token app true w
    end.
Proof.
  cbv beta iota zeta delta [fetch_kra_token bind cache_get cache_key negb].
  destruct (cache w !! (str "kra_token_" ++ app)) as [[v e]|]; [|reflexivity].
  destruct (now w <? e); simpl; [|reflexivity].
  destruct (truthy v); reflexivity.
Qed.

(** ** The decoder on blank text *)

Lemma isspace_range c : py_isspace c = true -> (c <= 32 \/ 133 <= c)%N.
Proof.
  unfold py_isspace.
  rewrite !orb_true_iff, !andb_true_iff, !N.leb_le, !N.eqb_eq. lia.
Qed.

Lemma lstrip_head s :
  lstrip s = [] \/ exists c r, lstrip s = c :: r /\ py_isspace c = false.
Proof.
  induction s as [|c r IH]; simpl; [now left|].
  destruct (py_isspace c) eqn:E; [exact IH|].
  right. now exists c, r.
Qed.

Lemma lstrip_nil_blank s : lstrip s = [] -> forallb py_isspace s = true.
Proof.
  induction s as [|c r IH]; simpl; [reflexivity|].
  destruct (py_isspace c); [exact IH|discriminate].
Qed.

Lemma forallb_rev_blank (s : pystr) :
  forallb py_isspace (rev s) = true -> forallb py_isspace s = true.
Proof.
  rewrite !forallb_forall. intros H x Hx. apply H. now apply in_rev in Hx.
Qed.

(** A text that [strip()] empties has whitespace only. *)
Lemma strip_nil_blank s : strip s = [] -> forallb py_isspace s = true.
Proof.
  unfold strip, rstrip. intros H.
  assert (Hl : lstrip (rev (lstrip s)) = []).
  { destruct (lstrip (rev (lstrip s))) as [|x l]; [reflexivity|].
    simpl in H. destruct (rev l); discriminate. }
  apply lstrip_nil_blank, forallb_rev_blank in Hl.
  apply lstrip_nil_blank.
  destruct (lstrip_head s) as [E|(c & r & E & Hc)]; [exact E|].
  rewrite E in Hl. simpl in Hl. rewrite Hc in Hl. discriminate.
Qed.

(** No value starts with a whitespace character. *)
Lemma scan_atom_space c r : py_isspace c = true -> scan_atom (c :: r) = None.
Proof.
  intros H. apply isspace_range in H.
  unfold scan_atom, match_number, match_sign, match_int, is_digit.
  eval_lits. cbn [strip_prefix].
  repeat match goal with
  | |- context [N.eqb ?a ?b] => destruct (N.eqb_spec a b); [exfalso; lia|]
  | |- context [N.leb ?a ?b] => destruct (N.leb_spec a b)
  | |- _ => progress cbn [andb]
  end; try reflexivity; exfalso; lia.
Qed.

Lemma scan_once_space fuel c r :
  py_isspace c = true -> scan_once fuel (c :: r) = None.
Proof.
  intros H. destruct fuel as [|f]; [reflexivity|].
  cbn [scan_once]. rewrite (scan_atom_space c r H).
  apply isspace_range in H. unfold dquote. eval_lits.
  repeat match goal with
  | |- context [N.eqb ?a ?b] => destruct (N.eqb_spec a b); [exfalso; lia|]
  end.
  reflexivity.
Qed.

Lemma scan_once_blank fuel s :
  forallb py_isspace s = true -> scan_once fuel (skip_ws s) = None.
Proof.
  induction s as [|c r IH]; simpl.
  - intros _. destruct fuel; reflexivity.
  - intros H. apply andb_true_iff in H as [Hc Hr].
    destruct (json_ws c); [now apply IH|].
    now apply scan_once_space.
Qed.

(** [json.loads] raises on a text that has whitespace only, the empty text
    among them. *)
Lemma json_loads_blank s : strip s = [] -> json_loads s = None.
Proof.
  intros H. apply strip_nil_blank in H. unfold json_loads.
  destruct (has_bom s); [reflexivity|].
  now rewrite scan_once_blank.
Qed.

(** ** The decoder never runs short of fuel *)

Lemma skip_ws_length s : (length (skip_ws s) <= length s)%nat.
Proof.
  induction s as [|c r IH]; cbn [skip_ws length]; [lia|].
  destruct (json_ws c); cbn [length]; lia.
Qed.

Lemma push_char_Some c o x r :
  push_char c o = Some (x, r) -> exists x', o = Some (x', r).
Proof.
  destruct o as [[x' r']|]; cbn; [|discriminate].
  intros [= _ <-]. now exists x'.
Qed.

(** A string takes at least its closing quote. *)
Lemma scan_string_length n :
  forall s x r, (length s <= n)%nat -> scan_string s = Some (x, r) ->
                (length r < length s)%nat.
Proof.
  induction n as [|n IH]; intros s x r Hn H.
  - destruct s; [discriminate|cbn in Hn; lia].
  - destruct s as [|c s]; [discriminate|].
    cbn [scan_string] in H. cbn [length] in *.
    repeat match type of H with
    | (if ?b then _ else _) = _ => destruct b
    | match ?l with [] => _ | _ :: _ => _ end = _ => destruct l; cbn [length] in *
    | match ?o with Some _ => _ | None => _ end = _ => destruct o
    | None = Some _ => discriminate
    | Some _ = Some _ => injection H as <- <-; lia
    | push_char _ (scan_string ?t) = _ =>
        apply push_char_Some in H as [x' H]; apply IH in H; cbn [length] in *; lia
    end.
Qed.

Lemma span_digits_length s : (length (snd (span_digits s)) <= length s)%nat.
Proof.
  induction s as [|c r IH]; cbn [span_digits]; [cbn; lia|].
  destruct (is_digit c); [|cbn; lia].
  destruct (span_digits r) as [ds rest]. cbn [snd length] in *. lia.
Qed.

Lemma match_frac_length s : (length (snd (match_frac s)) <= length s)%nat.
Proof.
  unfold match_frac. destruct s as [|c r]; [cbn; lia|].
  destruct (c =? ch ".")%N; [|cbn; lia].
  pose proof (span_digits_length r) as H.
  destruct (span_digits r) as [[|d ds] rest]; cbn [snd length] in *; lia.
Qed.

Lemma match_exp_length s : (length (snd (match_exp s)) <= length s)%nat.
Proof.
  unfold match_exp. destruct s as [|c r]; [cbn; lia|].
  destruct ((c =? ch "e") || (c =? ch "E"))%N; [|cbn; lia].
  destruct r as [|sg r']; [cbn; lia|].
  destruct (sg =? ch "-")%N; [|destruct (sg =? ch "+")%N];
    match goal with
    | |- context [span_digits ?t] =>
        pose proof (span_digits_length t) as H;
        destruct (span_digits t) as [[|d ds] rest]; cbn [snd length] in *; lia
    end.
Qed.

Lemma match_sign_length s : (length (snd (match_sign s)) <= length s)%nat.
Proof.
  unfold match_sign. destruct s as [|c r]; [cbn; lia|].
  destruct (c =? ch "-")%N; cbn [snd length]; lia.
Qed.

Lemma match_int_length s ids r :
  match_int s = Some (ids, r) -> (length r < length s)%nat.
Proof.
  unfold match_int. destruct s as [|c r0]; [discriminate|].
  destruct (c =? ch "0")%N; [intros [= _ <-]; cbn; lia|].
  destruct (is_digit c); [|discriminate].
  pose proof (span_digits_length r0) as H.
  destruct (span_digits r0) as [ds rest]. cbn [snd] in H.
  intros [= _ <-]. cbn [length]. lia.
Qed.

Lemma match_number_length s v r :
  match_number s = Some (v, r) -> (length r < length s)%nat.
Proof.
  unfold match_number.
  pose proof (match_sign_length s) as Hs.
  destruct (match_sign s) as [neg s1]. cbn [snd] in Hs.
  destruct (match_int s1) as [[ids r1]|] eqn:Hi; [|discriminate].
  apply match_int_length in Hi.
  pose proof (match_frac_length r1) as Hf.
  destruct (match_frac r1) as [fds r2]. cbn [snd] in Hf.
  pose proof (match_exp_length r2) as He.
  destruct (match_exp r2) as [ex r3]. cbn [snd] in He.
  intros [= _ <-]. lia.
Qed.

Lemma strip_prefix_length lit :
  forall s r, strip_prefix lit s = Some r -> (length r + length lit = length s)%nat.
Proof.
  induction lit as [|a lit IH]; intros s r; cbn [strip_prefix].
  - intros [= <-]. cbn. lia.
  - destruct s as [|b s]; [discriminate|].
    destruct (a =? b)%N; [|discriminate].
    intros H. apply IH in H. cbn [length]. lia.
Qed.

Lemma strip_prefix_shorter lit s r :
  lit <> [] -> strip_prefix lit s = Some r -> (length r < length s)%nat.
Proof.
  intros Hne H. apply strip_prefix_length in H.
  destruct lit; [congruence|cbn [length] in H; lia].
Qed.

Lemma scan_atom_length s v r :
  scan_atom s = Some (v, r) -> (length r < length s)%nat.
Proof.
  unfold scan_atom.
  repeat match goal with
  | |- context [strip_prefix (str ?l) s] =>
      let E := fresh "E" in
      destruct (strip_prefix (str l) s) eqn:E;
      [apply strip_prefix_shorter in E; [now intros [= _ <-]|discriminate]|]
  | |- context [match_number s] =>
      let E := fresh "E" in
      destruct (match_number s) as [[v' r']|] eqn:E;
      [apply match_number_length in E; now intros [= _ <-]|]
  end.
  discriminate.
Qed.

(** Whatever the scanner reads, it reads at least one character. *)
Lemma scan_length fuel :
  (forall s v r, scan_once fuel s = Some (v, r) -> (length r < length s)%nat)
  /\ (forall s kvs r, parse_members fuel s = Some (kvs, r) -> (length r < length s)%nat)
  /\ (forall s vs r, parse_elems fuel s = Some (vs, r) -> (length r < length s)%nat).
Proof.
  induction fuel as [|f (IHv & IHm & IHe)].
  - repeat split; intros; discriminate.
  - repeat split.
    + intros s v r H. cbn [scan_once] in H.
      destruct s as [|c r0]; [discriminate|].
      destruct (c =? dquote)%N.
      { destruct (scan_string r0) as [[x rest]|] eqn:E; [|discriminate].
        apply (scan_string_length _ _ _ _ (le_n _)) in E.
        injection H as _ <-. cbn [length]. lia. }
      destruct (c =? ch "{")%N.
      { pose proof (skip_ws_length r0) as Hw.
        destruct (skip_ws r0) as [|c2 r2] eqn:Ew; [discriminate|].
        destruct (c2 =? ch "}")%N.
        - injection H as _ <-. cbn [length] in *. lia.
        - destruct (parse_members f (c2 :: r2)) as [[kvs rest]|] eqn:E; [|discriminate].
          apply IHm in E. injection H as _ <-. cbn [length] in *. lia. }
      destruct (c =? ch "[")%N.
      { pose proof (skip_ws_length r0) as Hw.
        destruct (skip_ws r0) as [|c2 r2] eqn:Ew; [discriminate|].
        destruct (c2 =? ch "]")%N.
        - injection H as _ <-. cbn [length] in *. lia.
        - destruct (parse_elems f (c2 :: r2)) as [[vs rest]|] eqn:E; [|discriminate].
          apply IHe in E. injection H as _ <-. cbn [length] in *. lia. }
      now apply scan_atom_length in H.
    + intros s kvs r H. cbn [parse_members] in H.
      destruct s as [|c r0]; [discriminate|].
      destruct (c =? dquote)%N; [|discriminate].
      destruct (scan_string r0) as [[key r1]|] eqn:Ek; [|discriminate].
      apply (scan_string_length _ _ _ _ (le_n _)) in Ek.
      pose proof (skip_ws_length r1) as Hw1.
      destruct (skip_ws r1) as [|c2 r2]; [discriminate|].
      destruct (c2 =? ch ":")%N; [|discriminate].
      pose proof (skip_ws_length r2) as Hw2.
      destruct (scan_once f (skip_ws r2)) as [[v r3]|] eqn:Ev; [|discriminate].
      apply IHv in Ev.
      pose proof (skip_ws_length r3) as Hw3.
      destruct (skip_ws r3) as [|c3 r4]; [discriminate|].
      destruct (c3 =? ch "}")%N.
      { injection H as _ <-. cbn [length] in *. lia. }
      destruct (c3 =? ch ",")%N; [|discriminate].
      pose proof (skip_ws_length r4) as Hw4.
      destruct (parse_members f (skip_ws r4)) as [[kvs' rest]|] eqn:Em; [|discriminate].
      apply IHm in Em. injection H as _ <-. cbn [length] in *. lia.
    + intros s vs r H. cbn [parse_elems] in H.
      destruct (scan_once f s) as [[v r1]|] eqn:Ev; [|discriminate].
      apply IHv in Ev.
      pose proof (skip_ws_length r1) as Hw1.
      destruct (skip_ws r1) as [|c r2]; [discriminate|].
      destruct (c =? ch "]")%N.
      { injection H as _ <-. cbn [length] in *. lia. }
      destruct (c =? ch ",")%N; [|discriminate].
      pose proof (skip_ws_length r2) as Hw2.
      destruct (parse_elems f (skip_ws r2)) as [[vs' rest]|] eqn:Ee; [|discriminate].
      apply IHe in Ee. injection H as _ <-. cbn [length] in *. lia.
Qed.

(** Fuel beyond two units per character changes nothing: no call of the
    scanner stops for lack of it. *)
Lemma scan_fuel f :
  (forall s f', (2 * length s < f)%nat -> (f <= f')%nat ->
                scan_once f' s = scan_once f s)
  /\ (forall s f', (2 * length s + 1 < f)%nat -> (f <= f')%nat ->
                   parse_members f' s = parse_members f s)
  /\ (forall s f', (2 * length s + 1 < f)%nat -> (f <= f')%nat ->
                   parse_elems f' s = parse_elems f s).
Proof.
  induction f as [|f (IHv & IHm & IHe)].
  - repeat split; intros; lia.
  - repeat split; intros s f' Hlen Hf'; (destruct f' as [|f']; [lia|]).
    + cbn [scan_once].
      destruct s as [|c r0]; [reflexivity|]. cbn [length] in Hlen.
      destruct (c =? dquote)%N; [reflexivity|].
      pose proof (skip_ws_length r0) as Hw.
      destruct (c =? ch "{")%N.
      { destruct (skip_ws r0) as [|c2 r2]; [reflexivity|].
        destruct (c2 =? ch "}")%N; [reflexivity|].
        rewrite (IHm (c2 :: r2) f') by lia. reflexivity. }
      destruct (c =? ch "[")%N; [|reflexivity].
      destruct (skip_ws r0) as [|c2 r2]; [reflexivity|].
      destruct (c2 =? ch "]")%N; [reflexivity|].
      rewrite (IHe (c2 :: r2) f') by lia. reflexivity.
    + cbn [parse_members].
      destruct s as [|c r0]; [reflexivity|]. cbn [length] in Hlen.
      destruct (c =? dquote)%N; [|reflexivity].
      destruct (scan_string r0) as [[key r1]|] eqn:Ek; [|reflexivity].
      apply (scan_string_length _ _ _ _ (le_n _)) in Ek.
      pose proof (skip_ws_length r1) as Hw1.
      destruct (skip_ws r1) as [|c2 r2]; [reflexivity|].
      destruct (c2 =? ch ":")%N; [|reflexivity].
      pose proof (skip_ws_length r2) as Hw2. cbn [length] in Hw1.
      rewrite (IHv (skip_ws r2) f') by lia.
      destruct (scan_once f (skip_ws r2)) as [[v r3]|] eqn:Ev; [|reflexivity].
      apply (proj1 (scan_length f)) in Ev.
      pose proof (skip_ws_length r3) as Hw3.
      destruct (skip_ws r3) as [|c3 r4]; [reflexivity|].
      destruct (c3 =? ch "}")%N; [reflexivity|].
      destruct (c3 =? ch ",")%N; [|reflexivity].
      pose proof (skip_ws_length r4) as Hw4. cbn [length] in Hw3.
      rewrite (IHm (skip_ws r4) f') by lia. reflexivity.
    + cbn [parse_elems].
      rewrite (IHv s f') by lia.
      destruct (scan_once f s) as [[v r1]|] eqn:Ev; [|reflexivity].
      apply (proj1 (scan_length f)) in Ev.
      pose proof (skip_ws_length r1) as Hw1.
      destruct (skip_ws r1) as [|c r2]; [reflexivity|].
      destruct (c =? ch "]")%N; [reflexivity|].
      destruct (c =? ch ",")%N; [|reflexivity].
      pose proof (skip_ws_length r2) as Hw2. cbn [length] in Hw1.
      rewrite (IHe (skip_ws r2) f') by lia. reflexivity.
Qed.

(** [json_loads] gives its scanner enough: more fuel, same answer. *)
Lemma json_loads_fuel s fuel :
  (S (2 * length s) <= fuel)%nat ->
  scan_once fuel (skip_ws s) = scan_once (S (2 * length s)) (skip_ws s).
Proof.
  intros H. apply (proj1 (scan_fuel (S (2 * length s)))); [|exact H].
  pose proof (skip_ws_length s). lia.
Qed.

(** ** [fetch_kra_token]: consequences *)

Lemma fetch_unforced_cached app w :
  fetch_kra_token app false w =
    match cached_token app w with
    | Some t => (Return t, w)
    | None => fetch_kra_token app true w
    end.
Proof.
  rewrite fetch_unforced_eq. unfold cached_token.
  destruct (cache w !! cache_key app) as [[v e]|]; [|reflexivity].
  destruct ((now w <? e) && truthy v); reflexivity.
Qed.

(** A forced call that returns went through the token endpoint. *)
Lemma fetch_forced_return app w t w' :
  fetch_kra_token app true w = (Return t, w') ->
  exists cfg r members,
    KRA_APPS w !! app = Some cfg /\
    reply (get_replies w 0%nat) = Responded r /\
    ok r = true /\
    json_loads (text r) = Some (JObj members) /\
    t = (let a := default JNull (dict_get (str "access_token") members) in
         if negb (truthy a) then JStr (strip (text r)) else a) /\
    w' = store (cache_key app) t 3600 (answer_get (token_request cfg) w).
Proof.
  destruct (KRA_APPS w !! app) as [cfg|] eqn:Hcfg.
  2: { rewrite (fetch_forced_unknown_app _ _ Hcfg). discriminate. }
  rewrite (fetch_forced_eq _ _ _ Hcfg). cbv zeta.
  destruct (reply (get_replies w 0%nat)) as [r|msg|msg]; try discriminate.
  destruct (ok r) eqn:Hok; try discriminate.
  destruct (json_loads (text r)) as [v|] eqn:Hj; try discriminate.
  destruct v; try discriminate.
  intros [= <- <-].
  exists cfg, r, members. repeat split; (assumption || reflexivity).
Qed.

(** A failed call leaves the cache as it was. *)
Lemma fetch_raise_cache app force w e w' :
  fetch_kra_token app force w = (Raise e, w') -> cache w' = cache w.
Proof.
  assert (Hforced : forall e w', fetch_kra_token app true w = (Raise e, w') ->
                                 cache w' = cache w).
  { clear. intros e w'.
    destruct (KRA_APPS w !! app) as [cfg|] eqn:Hcfg.
    2: { rewrite (fetch_forced_unknown_app _ _ Hcfg). now intros [= _ <-]. }
    rewrite (fetch_forced_eq _ _ _ Hcfg). cbv zeta.
    destruct (reply (get_replies w 0%nat)) as [r|msg|msg];
      try (now intros [= _ <-]).
    destruct (ok r); try (now intros [= _ <-]).
    destruct (json_loads (text r)) as [v|]; try (now intros [= _ <-]).
    destruct v; try discriminate; now intros [= _ <-]. }
  destruct force; [apply Hforced|].
  rewrite fetch_unforced_cached.
  destruct (cached_token app w); [discriminate|apply Hforced].
Qed.

(** A body that decodes is not blank. *)
Lemma json_loads_Some_strip s v : json_loads s = Some v -> strip s <> [].
Proof. intros H E. rewrite (json_loads_blank _ E) in H. discriminate. Qed.

(** Whatever [fetch_kra_token] returns is true as [if token:] tests it. *)
Lemma fetch_return_truthy app force w t w' :
  fetch_kra_token app force w = (Return t, w') -> truthy t = true.
Proof.
  assert (Hforced : forall t w', fetch_kra_token app true w = (Return t, w') ->
                                 truthy t = true).
  { clear. intros t w' H.
    apply fetch_forced_return in H as (cfg & r & m & _ & _ & _ & Hj & Ht & _).
    subst t. cbv zeta.
    destruct (truthy (default JNull (dict_get (str "access_token") m))) eqn:E;
      simpl; [exact E|].
    apply json_loads_Some_strip in Hj. now destruct (strip (text r)). }
  destruct force; [apply Hforced|].
  rewrite fetch_unforced_cached. unfold cached_token.
  destruct (cache w !! cache_key app) as [[v e]|]; [|apply Hforced].
  destruct ((now w <? e) && truthy v) eqn:E; [|apply Hforced].
  intros [= <- _]. now apply andb_true_iff in E.
Qed.

(** The token endpoint does not touch what the POSTs will meet. *)
Lemma fetch_post_replies app force w r w' :
  fetch_kra_token app force w = (r, w') -> post_replies w' = post_replies w.
Proof.
  assert (Hforced : forall r w', fetch_kra_token app true w = (r, w') ->
                                 post_replies w' = post_replies w).
  { clear. intros r w'.
    destruct (KRA_APPS w !! app) as [cfg|] eqn:Hcfg.
    2: { rewrite (fetch_forced_unknown_app _ _ Hcfg). now intros [= _ <-]. }
    rewrite (fetch_forced_eq _ _ _ Hcfg). cbv zeta.
    destruct (reply (get_replies w 0%nat)) as [x|msg|msg];
      try (now intros [= _ <-]).
    destruct (ok x); try (now intros [= _ <-]).
    destruct (json_loads (text x)) as [v|]; try (now intros [= _ <-]).
    destruct v; now intros [= _ <-]. }
  destruct force; [apply Hforced|].
  rewrite fetch_unforced_cached.
  destruct (cached_token app w); [now intros [= _ <-]|apply Hforced].
Qed.

(** What [fetch_kra_token] raises is a plain Exception: neither handler of
    [call_kra_endpoint] catches it. *)
Lemma fetch_raise_plain app force w e w' :
  fetch_kra_token app force w = (Raise e, w') -> is_RequestException e = false.
Proof.
  assert (Hforced : forall e w', fetch_kra_token app true w = (Raise e, w') ->
                                 is_RequestException e = false).
  { clear. intros e w'.
    destruct (KRA_APPS w !! app) as [cfg|] eqn:Hcfg.
    2: { rewrite (fetch_forced_unknown_app _ _ Hcfg). now intros [= <- _]. }
    rewrite (fetch_forced_eq _ _ _ Hcfg). cbv zeta.
    destruct (reply (get_replies w 0%nat)) as [r|msg|msg];
      try (now intros [= <- _]).
    destruct (ok r); try (now intros [= <- _]).
    destruct (json_loads (text r)) as [v|]; try (now intros [= <- _]).
    destruct v; try discriminate; now intros [= <- _]. }
  destruct force; [apply Hforced|].
  rewrite fetch_unforced_cached.
  destruct (cached_token app w); [discriminate|apply Hforced].
Qed.

(** ** The token manager: claims *)

(** C1. When the token endpoint is consulted and answers with a success
    status and an empty body (more generally a body that [strip()]
    empties, so with no access_token in it), [fetch_kra_token] raises
    "Failed to get access token: ..." (the spec's UpstreamAuthError); it
    returns no token and the cache is left as it was. *)
Theorem fetch_kra_token_empty_body_fails app force w cfg r :
  force = true \/ cached_token app w = None ->
  KRA_APPS w !! app = Some cfg ->
  reply (get_replies w 0%nat) = Responded r ->
  ok r = true ->
  strip (text r) = [] ->
  fetch_kra_token app force w =
    (Raise (FailedToGetAccessToken JSONDecodeError),
     answer_get (token_request cfg) w)
  /\ UpstreamAuthError (FailedToGetAccessToken JSONDecodeError) = true
  /\ cache (answer_get (token_request cfg) w) = cache w.
Proof.
  intros Hnet Hcfg Hr Hok Hblank.
  assert (E : fetch_kra_token app true w =
              (Raise (FailedToGetAccessToken JSONDecodeError),
               answer_get (token_request cfg) w)).
  { rewrite (fetch_forced_eq _ _ _ Hcfg). cbv zeta.
    now rewrite Hr, Hok, (json_loads_blank _ Hblank). }
  repeat split.
  destruct Hnet as [-> | Hmiss]; [exact E|].
  destruct force; [exact E|].
  now rewrite fetch_unforced_cached, Hmiss.
Qed.

Lemma fetch_kra_token_empty_body_fails_witness :
  fetch_kra_token app1 false world_empty_body =
    (Raise (FailedToGetAccessToken JSONDecodeError),
     answer_get (token_request app1_config) world_empty_body)
  /\ UpstreamAuthError (FailedToGetAccessToken JSONDecodeError) = true
  /\ cache (answer_get (token_request app1_config) world_empty_body)
     = cache world_empty_body.
Proof.
  apply (fetch_kra_token_empty_body_fails app1 false world_empty_body app1_config
           (plain 200 [])).
  - right. reflexivity.
  - reflexivity.
  - reflexivity.
  - reflexivity.
  - reflexivity.
Defined.

(** C2, at the input where the code departs from it. The token endpoint
    answers 200 with the bare text abc123: [response.json()] raises before
    the fallback to the trimmed body is reached, so [fetch_kra_token]
    raises "Failed to get access token: ..." and caches nothing, where the
    claim has it return abc123. *)
Theorem fetch_kra_token_bare_token_fails app w cfg r :
  KRA_APPS w !! app = Some cfg ->
  reply (get_replies w 0%nat) = Responded r ->
  ok r = true ->
  text r = str "abc123" ->
  fetch_kra_token app true w =
    (Raise (FailedToGetAccessToken JSONDecodeError),
     answer_get (token_request cfg) w)
  /\ cache (answer_get (token_request cfg) w) = cache w.
Proof.
  intros Hcfg Hr Hok Ht. split; [|reflexivity].
  rewrite (fetch_forced_eq _ _ _ Hcfg). cbv zeta.
  rewrite Hr, Hok, Ht. reflexivity.
Qed.

Lemma fetch_kra_token_bare_token_fails_witness :
  fetch_kra_token app1 true world_bare_token =
    (Raise (FailedToGetAccessToken JSONDecodeError),
     answer_get (token_request app1_config) world_bare_token)
  /\ cache (answer_get (token_request app1_config) world_bare_token)
     = cache world_bare_token.
Proof.
  apply (fetch_kra_token_bare_token_fails app1 world_bare_token app1_config
           (plain 200 (str "abc123"))); reflexivity.
Defined.


(** Any body that does not decode, blank or not, ends the same way. *)
Lemma fetch_kra_token_not_json app w cfg r :
  KRA_APPS w !! app = Some cfg ->
  reply (get_replies w 0%nat) = Responded r ->
  ok r = true ->
  json_loads (text r) = None ->
  fetch_kra_token app true w =
    (Raise (FailedToGetAccessToken JSONDecodeError),
     answer_get (token_request cfg) w).
Proof.
  intros Hcfg Hr Hok Hj.
  rewrite (fetch_forced_eq _ _ _ Hcfg). cbv zeta.
  now rewrite Hr, Hok, Hj.
Qed.

(** C8. Without [force_refresh], a token that is in the cache under the
    app's key and has not expired is returned as it is, and the world is
    unchanged: no request is sent, no reply is used up, the cache is not
    written. A cached token is a value that passes [if token:], as every
    value [fetch_kra_token] stores does ([fetch_return_truthy]). *)
Theorem fetch_kra_token_cached app w t expires_at :
  cache w !! cache_key app = Some (t, expires_at) ->
  now w < expires_at ->
  truthy t = true ->
  fetch_kra_token app false w = (Return t, w).
Proof.
  intros Hc Hlive Ht.
  rewrite fetch_unforced_eq, Hc, Ht.
  apply Z.ltb_lt in Hlive. now rewrite Hlive.
Qed.

Lemma fetch_kra_token_cached_witness :
  fetch_kra_token app1 false world_T1_endpoint_down
  = (Return (JStr (str "T1")), world_T1_endpoint_down).
Proof.
  apply (fetch_kra_token_cached app1 world_T1_endpoint_down (JStr (str "T1")) 4000).
  - reflexivity.
  - reflexivity.
  - reflexivity.
Defined.




(** C10. A POST to /token/ that is answered 200 has sent the token request
    and carries the token taken from the reply of the token endpoint, and
    the cache entry of the selected app is now that token with a 3600
    second expiry, whatever the cache held before. *)
Theorem GetTokenView_post_always_refreshes data w t w' :
  GetTokenView_post data w = (Ok200 t, w') ->
  exists app cfg r members,
    TokenRequestSerializer data = Some app /\
    KRA_APPS w !! app = Some cfg /\
    reply (get_replies w 0%nat) = Responded r /\
    json_loads (text r) = Some (JObj members) /\
    t = (let a := default JNull (dict_get (str "access_token") members) in
         if negb (truthy a) then JStr (strip (text r)) else a) /\
    sent w' = sent w ++ [token_request cfg] /\
    cache w' = <[cache_key app := (t, now w' + 3600)]> (cache w).
Proof.
  unfold GetTokenView_post.
  destruct (TokenRequestSerializer data) as [app|]; [|discriminate].
  destruct (fetch_kra_token app true w) as [[t0|e] w0] eqn:E; [|discriminate].
  intros [= <- <-].
  apply fetch_forced_return in E
    as (cfg & r & m & Hcfg & Hr & _ & Hj & Ht & ->).
  exists app, cfg, r, m. repeat split; (assumption || reflexivity).
Qed.

Lemma GetTokenView_post_always_refreshes_witness :
  exists app cfg r members,
    TokenRequestSerializer (JObj [(str "app", JStr app1)]) = Some app /\
    KRA_APPS world_T1_then_T2 !! app = Some cfg /\
    reply (get_replies world_T1_then_T2 0%nat) = Responded r /\
    json_loads (text r) = Some (JObj members) /\
    JStr (str "T2") =
      (let a := default JNull (dict_get (str "access_token") members) in
       if negb (truthy a) then JStr (strip (text r)) else a) /\
    sent (snd (GetTokenView_post (JObj [(str "app", JStr app1)]) world_T1_then_T2))
      = sent world_T1_then_T2 ++ [token_request cfg] /\
    cache (snd (GetTokenView_post (JObj [(str "app", JStr app1)]) world_T1_then_T2))
      = <[cache_key app :=
            (JStr (str "T2"),
             now (snd (GetTokenView_post (JObj [(str "app", JStr app1)])
                         world_T1_then_T2)) + 3600)]>
          (cache world_T1_then_T2).
Proof.
  apply (GetTokenView_post_always_refreshes
           (JObj [(str "app", JStr app1)]) world_T1_then_T2 (JStr (str "T2"))).
  reflexivity.
Defined.

(** ** One pass of the loop, reply by reply *)

Section OnePass.
Variables (url : pystr) (payload : json) (app : pystr).
Variables (max_retries timeout : Z).


Lemma loop_body_timeout st w msg :
  reply (post_replies w 0%nat) = TimedOut msg ->
  loop_body url payload app max_retries timeout st w =
    (if retries st + 1 >=? max_retries then Raise MaximumRetriesReached
     else Return (Continue (set_retries (retries st + 1) st)),
     answer_post (HttpPost url payload (hdrs_of st) false timeout) w).
Proof.
  intros H.
  cbv beta iota zeta delta [loop_body try_except bind requests_post].
  rewrite H. cbn [raise_or_respond is_Timeout set_retries retries].
  unfold raise, ret. now destruct (retries st + 1 >=? max_retries).
Qed.

Lemma loop_body_broken st w msg :
  reply (post_replies w 0%nat) = Broken msg ->
  loop_body url payload app max_retries timeout st w = (Raise (RequestsError msg), answer_post (HttpPost url payload (hdrs_of st) false timeout) w).
Proof.
  intros H.
  cbv beta iota zeta delta [loop_body try_except bind requests_post].
  rewrite H. reflexivity.
Qed.

Lemma loop_body_other st w r :
  reply (post_replies w 0%nat) = Responded r ->
  status_code r <> 401 ->
  status_code r <> 504 ->
  loop_body url payload app max_retries timeout st w = (Return (Break (set_response r st)), answer_post (HttpPost url payload (hdrs_of st) false timeout) w).
Proof.
  intros H H1 H2.
  cbv beta iota zeta delta [loop_body try_except bind requests_post].
  rewrite H. cbn [raise_or_respond].
  apply Z.eqb_neq in H1, H2. rewrite H1, H2. reflexivity.
Qed.

Lemma loop_body_504 st w r :
  reply (post_replies w 0%nat) = Responded r ->
  status_code r = 504 ->
  loop_body url payload app max_retries timeout st w =
    (Return (if retries st + 1 <? max_retries
             then Continue (set_retries (retries st + 1) (set_response r st))
             else Break (set_retries (retries st + 1) (set_response r st))),
     answer_post (HttpPost url payload (hdrs_of st) false timeout) w).
Proof.
  intros H H1.
  cbv beta iota zeta delta [loop_body try_except bind requests_post].
  rewrite H. cbn [raise_or_respond]. rewrite H1.
  cbn [Z.eqb Pos.eqb set_retries set_response retries].
  unfold ret. now destruct (retries st + 1 <? max_retries).
Qed.

Lemma loop_body_401_refreshed st w r t w' :
  reply (post_replies w 0%nat) = Responded r ->
  status_code r = 401 ->
  fetch_kra_token app true (answer_post (HttpPost url payload (hdrs_of st) false timeout) w) = (Return t, w') ->
  loop_body url payload app max_retries timeout st w = (Return (Continue (set_token t (set_response r st))), w').
Proof.
  intros H H1 Hf.
  cbv beta iota zeta delta [loop_body try_except bind requests_post].
  rewrite H. cbn [raise_or_respond]. rewrite H1. cbn [Z.eqb Pos.eqb].
  rewrite Hf. reflexivity.
Qed.

Lemma while_loop_enter fuel st w :
  retries st < max_retries ->
  while_loop (S fuel) max_retries (loop_body url payload app max_retries timeout) st w =
    match loop_body url payload app max_retries timeout st w with
    | (Return (Continue st'), w') => while_loop fuel max_retries
        (loop_body url payload app max_retries timeout) st' w'
    | (Return (Break st'), w') => (Exited st', w')
    | (Raise e, w') => (Raised e, w')
    end.
Proof.
  intros H. apply Z.ltb_lt in H. cbn [while_loop]. now rewrite H.
Qed.

Lemma while_loop_skip fuel st w :
  max_retries <= retries st ->
  while_loop fuel max_retries (loop_body url payload app max_retries timeout) st w = (Exited st, w).
Proof.
  intros H. apply Z.ltb_ge in H. destruct fuel; cbn [while_loop]; now rewrite H.
Qed.

(** A status other than 401 and 504 ends the loop on the spot, from any
    pass: one POST, the response kept, the retry count as it was. *)
Lemma while_loop_other_status fuel st w r :
  retries st < max_retries ->
  reply (post_replies w 0%nat) = Responded r ->
  status_code r <> 401 ->
  status_code r <> 504 ->
  while_loop (S fuel) max_retries (loop_body url payload app max_retries timeout) st w =
    (Exited (set_response r st), answer_post (HttpPost url payload (hdrs_of st) false timeout) w).
Proof.
  intros Hlt H H1 H2.
  now rewrite (while_loop_enter _ _ _ Hlt), (loop_body_other _ _ _ H H1 H2).
Qed.

(** A 504 with budget left goes round again, one retry spent. *)
Lemma while_loop_504_again fuel st w r :
  retries st + 1 < max_retries ->
  reply (post_replies w 0%nat) = Responded r ->
  status_code r = 504 ->
  while_loop (S fuel) max_retries (loop_body url payload app max_retries timeout) st w =
    while_loop fuel max_retries (loop_body url payload app max_retries timeout)
      (set_retries (retries st + 1) (set_response r st))
      (answer_post (HttpPost url payload (hdrs_of st) false timeout) w).
Proof.
  intros Hlt H H1.
  rewrite while_loop_enter by lia. rewrite (loop_body_504 _ _ _ H H1).
  apply Z.ltb_lt in Hlt. now rewrite Hlt.
Qed.

(** A 504 that spends the last retry leaves the loop with that response. *)
Lemma while_loop_504_last fuel st w r :
  retries st < max_retries ->
  max_retries <= retries st + 1 ->
  reply (post_replies w 0%nat) = Responded r ->
  status_code r = 504 ->
  while_loop (S fuel) max_retries (loop_body url payload app max_retries timeout) st w =
    (Exited (set_retries (retries st + 1) (set_response r st)),
     answer_post (HttpPost url payload (hdrs_of st) false timeout) w).
Proof.
  intros Hlt Hge H H1.
  rewrite while_loop_enter by lia. rewrite (loop_body_504 _ _ _ H H1).
  apply Z.ltb_ge in Hge. now rewrite Hge.
Qed.

End OnePass.

(** ** Bookkeeping of the requests on record *)

Lemma posts_sent_post w url payload h v t :
  posts_sent (answer_post (HttpPost url payload h v t) w) = S (posts_sent w).
Proof.
  unfold posts_sent. cbn [answer_post sent].
  rewrite List.filter_app, length_app. cbn. lia.
Qed.

Lemma posts_sent_get w url params auth v :
  posts_sent (answer_get (HttpGet url params auth v) w) = posts_sent w.
Proof.
  unfold posts_sent. cbn [answer_get sent].
  rewrite List.filter_app, length_app. cbn. lia.
Qed.

Lemma gets_sent_post w url payload h v t :
  gets_sent (answer_post (HttpPost url payload h v t) w) = gets_sent w.
Proof.
  unfold gets_sent. cbn [answer_post sent].
  rewrite List.filter_app, length_app. cbn. lia.
Qed.

Lemma gets_sent_get w url params auth v :
  gets_sent (answer_get (HttpGet url params auth v) w) = S (gets_sent w).
Proof.
  unfold gets_sent. cbn [answer_get sent].
  rewrite List.filter_app, length_app. cbn. lia.
Qed.

Lemma sent_post_n rq n w : sent (post_n rq n w) = sent w ++ repeat rq n.
Proof.
  revert w. induction n as [|n IH]; intros w; cbn [post_n repeat].
  - now rewrite app_nil_r.
  - rewrite IH. cbn [answer_post sent]. now rewrite <- app_assoc.
Qed.

Lemma cache_post_n rq n w : cache (post_n rq n w) = cache w.
Proof.
  revert w. induction n as [|n IH]; intros w; cbn [post_n]; [reflexivity|].
  now rewrite IH.
Qed.

Lemma posts_sent_post_n url payload h v t n w :
  posts_sent (post_n (HttpPost url payload h v t) n w) = (posts_sent w + n)%nat.
Proof.
  revert w. induction n as [|n IH]; intros w; cbn [post_n]; [lia|].
  rewrite IH, posts_sent_post. lia.
Qed.

(** ** The loop under repeated timeouts *)

Lemma always_times_out_next rq w :
  always_times_out w -> always_times_out (answer_post rq w).
Proof. intros H k. exact (H (S k)). Qed.

Lemma while_loop_timeouts url payload app max_retries timeout n :
  forall fuel st w,
    always_times_out w ->
    retries st + Z.of_nat (S n) = max_retries ->
    (S n <= fuel)%nat ->
    while_loop fuel max_retries (loop_body url payload app max_retries timeout) st w
    = (Raised MaximumRetriesReached,
       post_n (HttpPost url payload (hdrs_of st) false timeout) (S n) w).
Proof.
  induction n as [|n IH]; intros fuel st w Hto Hn Hfuel;
    (destruct fuel as [|fuel]; [lia|]);
    (rewrite while_loop_enter by lia);
    destruct (Hto 0%nat) as [msg Hmsg];
    rewrite (loop_body_timeout _ _ _ _ _ _ _ _ Hmsg).
  - replace (retries st + 1 >=? max_retries) with true; [reflexivity|].
    symmetry. apply Z.geb_le. lia.
  - replace (retries st + 1 >=? max_retries) with false.
    2: { symmetry. rewrite Z.geb_leb. apply Z.leb_gt. lia. }
    rewrite (IH fuel (set_retries (retries st + 1) st)
               (answer_post (HttpPost url payload (hdrs_of st) false timeout) w)).
    + reflexivity.
    + now apply always_times_out_next.
    + cbn [set_retries retries]. lia.
    + lia.
Qed.

(** ** The forwarder: claims *)

(** C3, as the code has it. With [max_retries > 0] and a token in hand, if
    every POST times out, [call_kra_endpoint] sends the POST exactly
    [max_retries] times in all (the first attempt and [max_retries - 1]
    re-issues), sends nothing else, and raises "Maximum retries reached,
    request timed out". *)
Theorem call_kra_endpoint_all_timeouts url payload app max_retries timeout w t w1 fuel :
  0 < max_retries ->
  fetch_kra_token app false w = (Return t, w1) ->
  always_times_out w ->
  (Z.to_nat max_retries <= fuel)%nat ->
  let w' := post_n (api_request url payload t timeout) (Z.to_nat max_retries) w1 in
  call_kra_endpoint fuel url payload app max_retries timeout w
    = (Some (Raise MaximumRetriesReached), w')
  /\ sent w' = sent w1 ++ repeat (api_request url payload t timeout) (Z.to_nat max_retries)
  /\ posts_sent w' = (posts_sent w1 + Z.to_nat max_retries)%nat
  /\ reissues w1 w' = (Z.to_nat max_retries - 1)%nat.
Proof.
  intros Hpos Hf Hto Hfuel w'.
  assert (Hto1 : always_times_out w1).
  { intros k. rewrite (fetch_post_replies _ _ _ _ _ Hf). apply Hto. }
  assert (Hp : posts_sent w' = (posts_sent w1 + Z.to_nat max_retries)%nat)
    by apply posts_sent_post_n.
  split; [|split; [apply sent_post_n|split; [exact Hp|]]].
  - unfold call_kra_endpoint. rewrite Hf.
    destruct (Z.to_nat max_retries) as [|n] eqn:En; [lia|].
    rewrite (while_loop_timeouts url payload app max_retries timeout n fuel
               (initial_locals t) w1 Hto1); [reflexivity| |exact Hfuel].
    cbn [initial_locals retries]. lia.
  - unfold reissues. rewrite Hp. lia.
Qed.

Lemma call_kra_endpoint_all_timeouts_witness :
  let w' := post_n (api_request pin_url pin_payload (JStr (str "T1")) 60) 5
              world_T1_endpoint_down in
  call_kra_endpoint 5 pin_url pin_payload app1 5 60 world_T1_endpoint_down
    = (Some (Raise MaximumRetriesReached), w')
  /\ sent w' = sent world_T1_endpoint_down
               ++ repeat (api_request pin_url pin_payload (JStr (str "T1")) 60) 5
  /\ posts_sent w' = (posts_sent world_T1_endpoint_down + 5)%nat
  /\ reissues world_T1_endpoint_down w' = 4%nat.
Proof.
  apply (call_kra_endpoint_all_timeouts pin_url pin_payload app1 5 60
           world_T1_endpoint_down (JStr (str "T1")) world_T1_endpoint_down 5%nat).
  - lia.
  - reflexivity.
  - intros k. exists (str "Read timed out."). reflexivity.
  - cbn. lia.
Defined.

(** C3 as it is worded fails: with [max_retries = 1] the only POST times
    out and the call gives up without sending it again, and with the
    default 5 the POST goes out five times, so it is sent again four times,
    not five. *)
Lemma call_kra_endpoint_reissues_counterexample :
  always_times_out world_T1_endpoint_down
  /\
  (let w' := snd (call_kra_endpoint 1 pin_url pin_payload app1 1 60
                    world_T1_endpoint_down) in
   fst (call_kra_endpoint 1 pin_url pin_payload app1 1 60 world_T1_endpoint_down)
     = Some (Raise MaximumRetriesReached)
   /\ posts_sent w' = 1%nat
   /\ reissues world_T1_endpoint_down w' = 0%nat
   /\ reissues world_T1_endpoint_down w' <> Z.to_nat 1)
  /\
  (let w' := snd (call_kra_endpoint 5 pin_url pin_payload app1 5 60
                    world_T1_endpoint_down) in
   fst (call_kra_endpoint 5 pin_url pin_payload app1 5 60 world_T1_endpoint_down)
     = Some (Raise MaximumRetriesReached)
   /\ posts_sent w' = 5%nat
   /\ reissues world_T1_endpoint_down w' = 4%nat
   /\ reissues world_T1_endpoint_down w' <> Z.to_nat 5).
Proof.
  split; [intros k; exists (str "Read timed out."); reflexivity|].
  split; cbv zeta; repeat split; try reflexivity; vm_compute; discriminate.
Qed.

(** ** The ways out that the claims leave aside *)

(** X11. With [max_retries <= 0] the loop is skipped and [response] is read
    unbound: once a token is in hand the call raises UnboundLocalError
    without sending a single POST, whatever the upstream would answer. *)
Lemma call_kra_endpoint_no_budget fuel url payload app max_retries timeout w t w1 :
  max_retries <= 0 ->
  fetch_kra_token app false w = (Return t, w1) ->
  call_kra_endpoint fuel url payload app max_retries timeout w
  = (Some (Raise UnboundLocalError), w1).
Proof.
  intros Hle Hf. unfold call_kra_endpoint. rewrite Hf.
  rewrite while_loop_skip by (cbn; lia). reflexivity.
Qed.

(** X12. A forced refresh that fails ends the call: when the first POST is
    answered 401 and the token endpoint then fails, the exception of
    [fetch_kra_token] leaves [call_kra_endpoint] as it is (it is not
    wrapped in "Request failed: ") and the POST is not sent again. *)
Lemma call_kra_endpoint_refresh_fails fuel url payload app max_retries timeout
    w t w1 r e w2 :
  0 < max_retries ->
  fetch_kra_token app false w = (Return t, w1) ->
  reply (post_replies w 0%nat) = Responded r ->
  status_code r = 401 ->
  fetch_kra_token app true (answer_post (api_request url payload t timeout) w1)
    = (Raise e, w2) ->
  call_kra_endpoint (S fuel) url payload app max_retries timeout w
  = (Some (Raise e), w2).
Proof.
  intros Hpos Hf Hr Hs Hre.
  pose proof (fetch_raise_plain _ _ _ _ _ Hre) as Hplain.
  unfold call_kra_endpoint. rewrite Hf.
  rewrite while_loop_enter by (cbn; lia).
  cbv beta iota zeta delta [loop_body try_except bind requests_post].
  rewrite (fetch_post_replies _ _ _ _ _ Hf), Hr.
  cbn [raise_or_respond initial_locals hdrs_of]. rewrite Hs. cbn [Z.eqb Pos.eqb].
  unfold api_request in Hre. rewrite Hre.
  replace (is_Timeout e) with false.
  2: { destruct e; try reflexivity; discriminate. }
  cbn [request_failed]. now rewrite Hplain.
Qed.

(** A 504 on every POST spends the budget and surfaces as the error of the
    last response. *)
Lemma while_loop_all_504 url payload app max_retries timeout n :
  forall fuel st w,
    (forall k, exists r, reply (post_replies w k) = Responded r /\ status_code r = 504) ->
    retries st + Z.of_nat (S n) = max_retries ->
    (S n <= fuel)%nat ->
    exists st',
      while_loop fuel max_retries (loop_body url payload app max_retries timeout) st w
      = (Exited st', post_n (HttpPost url payload (hdrs_of st) false timeout) (S n) w)
      /\ retries st' = max_retries
      /\ exists r, response st' = Some r /\ status_code r = 504.
Proof.
  induction n as [|n IH]; intros fuel st w H504 Hn Hfuel;
    (destruct fuel as [|fuel]; [lia|]);
    destruct (H504 0%nat) as (r & Hr & Hs).
  - rewrite while_loop_504_last with (r := r) by (assumption || lia).
    eexists. split; [reflexivity|]. split; [cbn; lia|].
    exists r. now split.
  - rewrite while_loop_504_again with (r := r) by (assumption || lia).
    destruct (IH fuel (set_retries (retries st + 1) (set_response r st))
                (answer_post (HttpPost url payload (hdrs_of st) false timeout) w))
      as (st' & E & R & X).
    + intros k. exact (H504 (S k)).
    + cbn [set_retries retries]. lia.
    + lia.
    + exists st'. split; [exact E|]. now split.
Qed.

(** ** The loop when the answer is 401 every time *)

Lemma always_401_next rq w : always_401 w -> always_401 (answer_post rq w).
Proof. intros H k. exact (H (S k)). Qed.

Lemma tokens_flow_post app rq w : tokens_flow app w -> tokens_flow app (answer_post rq w).
Proof. intros H. exact H. Qed.

(** While tokens flow, every call of [fetch_kra_token] returns one, sends
    no POST, and leaves the flow in place. *)
Lemma tokens_flow_fetch app force w :
  tokens_flow app w ->
  exists t w',
    fetch_kra_token app force w = (Return t, w') /\
    tokens_flow app w' /\
    post_replies w' = post_replies w /\
    posts_sent w' = posts_sent w /\
    (force = true -> gets_sent w' = S (gets_sent w)).
Proof.
  intros Hflow.
  assert (Hforced : exists t w',
    fetch_kra_token app true w = (Return t, w') /\
    tokens_flow app w' /\
    post_replies w' = post_replies w /\
    posts_sent w' = posts_sent w /\
    gets_sent w' = S (gets_sent w)).
  { destruct Hflow as [[cfg Hcfg] Hget].
    destruct (Hget 0%nat) as (r & m & Hr & Hok & Hj).
    rewrite (fetch_forced_eq _ _ _ Hcfg). cbv zeta. rewrite Hr, Hok, Hj.
    eexists _, _. split; [reflexivity|].
    split; [|split; [reflexivity|split]].
    - split; [now exists cfg|]. intros k. exact (Hget (S k)).
    - apply posts_sent_get.
    - apply gets_sent_get. }
  destruct force.
  - destruct Hforced as (t & w' & E & H1 & H2 & H3 & H4).
    exists t, w'. split; [exact E|]. split; [exact H1|].
    split; [exact H2|]. split; [exact H3|]. intros _. exact H4.
  - rewrite fetch_unforced_cached.
    destruct (cached_token app w) as [t|].
    + exists t, w. split; [reflexivity|]. split; [exact Hflow|].
      split; [reflexivity|]. split; [reflexivity|]. discriminate.
    + destruct Hforced as (t & w' & E & H1 & H2 & H3 & H4).
      exists t, w'. split; [exact E|]. split; [exact H1|].
      split; [exact H2|]. split; [exact H3|]. discriminate.
Qed.

Lemma while_loop_401 url payload app max_retries timeout fuel :
  forall st w,
    0 < max_retries ->
    retries st = 0 ->
    tokens_flow app w ->
    always_401 w ->
    exists st' w',
      while_loop fuel max_retries (loop_body url payload app max_retries timeout) st w
        = (Running st', w') /\
      retries st' = 0 /\
      posts_sent w' = (posts_sent w + fuel)%nat /\
      gets_sent w' = (gets_sent w + fuel)%nat.
Proof.
  induction fuel as [|fuel IH]; intros st w Hpos Hst Hflow H401.
  - exists st, w. cbn [while_loop].
    replace (retries st <? max_retries) with true
      by (symmetry; apply Z.ltb_lt; lia).
    repeat split; (assumption || lia).
  - rewrite while_loop_enter by lia.
    destruct (H401 0%nat) as (r & Hr & Hs).
    destruct (tokens_flow_fetch app true
                (answer_post (HttpPost url payload (hdrs_of st) false timeout) w)
                (tokens_flow_post _ _ _ Hflow))
      as (t & w1 & Hf & Hflow1 & Hpr & Hps & Hgs).
    rewrite (loop_body_401_refreshed _ _ _ _ _ _ _ _ _ _ Hr Hs Hf).
    destruct (IH (set_token t (set_response r st)) w1 Hpos) as (st' & w' & E & R & P & G).
    + exact Hst.
    + exact Hflow1.
    + intros k. rewrite Hpr. exact (H401 (S k)).
    + exists st', w'. split; [exact E|]. split; [exact R|].
      rewrite P, G, Hps, (Hgs eq_refl), posts_sent_post, gets_sent_post. lia.
Qed.

(** C4, as the code has it. With [max_retries > 0], while the token
    endpoint keeps handing out tokens (so the first fetch and every forced
    refresh return), if every POST is answered 401 then the loop is still
    running after any number of passes: each pass sends one POST and one
    token request, and the retry counter is still 0. *)
Theorem call_kra_endpoint_401_never_ends url payload app max_retries timeout w fuel :
  0 < max_retries ->
  tokens_flow app w ->
  always_401 w ->
  exists t w1 st w',
    fetch_kra_token app false w = (Return t, w1) /\
    while_loop fuel max_retries (loop_body url payload app max_retries timeout)
      (initial_locals t) w1 = (Running st, w') /\
    retries st = 0 /\
    posts_sent w' = (posts_sent w + fuel)%nat /\
    gets_sent w' = (gets_sent w1 + fuel)%nat /\
    call_kra_endpoint fuel url payload app max_retries timeout w = (None, w').
Proof.
  intros Hpos Hflow H401.
  destruct (tokens_flow_fetch app false w Hflow)
    as (t & w1 & Hf & Hflow1 & Hpr & Hps & _).
  assert (H401' : always_401 w1) by (intros k; rewrite Hpr; apply H401).
  destruct (while_loop_401 url payload app max_retries timeout fuel
              (initial_locals t) w1 Hpos eq_refl Hflow1 H401')
    as (st & w' & E & R & P & G).
  exists t, w1, st, w'. repeat split; try assumption.
  - lia.
  - unfold call_kra_endpoint. now rewrite Hf, E.
Qed.

Lemma call_kra_endpoint_401_never_ends_witness :
  exists t w1 st w',
    fetch_kra_token app1 false world_401_forever = (Return t, w1) /\
    while_loop 7 5 (loop_body pin_url pin_payload app1 5 60)
      (initial_locals t) w1 = (Running st, w') /\
    retries st = 0 /\
    posts_sent w' = (posts_sent world_401_forever + 7)%nat /\
    gets_sent w' = (gets_sent w1 + 7)%nat /\
    call_kra_endpoint 7 pin_url pin_payload app1 5 60 world_401_forever = (None, w').
Proof.
  apply (call_kra_endpoint_401_never_ends pin_url pin_payload app1 5 60
           world_401_forever 7%nat).
  - lia.
  - split.
    + exists app1_config. reflexivity.
    + intros k. exists (plain 200 (token_body (str "T2"))).
      eexists. repeat split; reflexivity.
  - intros k. exists (plain 401 []). split; reflexivity.
Defined.

(** C4 as it is worded fails. With [max_retries = 0] the loop is skipped
    and the call ends at once (no POST goes out, and reading [response]
    raises UnboundLocalError). With [max_retries = 5] and 401 on every
    POST, the call ends after one POST when the forced refresh fails. *)
Lemma call_kra_endpoint_401_ends_counterexample :
  always_401 world_401_forever
  /\ fst (call_kra_endpoint 0 pin_url pin_payload app1 0 60 world_401_forever)
     = Some (Raise UnboundLocalError)
  /\ posts_sent (snd (call_kra_endpoint 0 pin_url pin_payload app1 0 60
                        world_401_forever)) = 0%nat
  /\ always_401 world_401_endpoint_down
  /\ fst (call_kra_endpoint 1 pin_url pin_payload app1 5 60 world_401_endpoint_down)
     = Some (Raise (TokenRequestRejected (str "down")))
  /\ posts_sent (snd (call_kra_endpoint 1 pin_url pin_payload app1 5 60
                        world_401_endpoint_down)) = 1%nat.
Proof.
  repeat split; try reflexivity;
    intros k; exists (plain 401 []); split; reflexivity.
Qed.

(** ** The loop on single replies *)

Lemma ok_200 r : status_code r = 200 -> ok r = true.
Proof. unfold ok. now intros ->. Qed.

Lemma error_details_layout r :
  error_details r =
    error_payload (headers_get (str "x-request-id") (str "unknown") (headers r))
      (str_of_Z (status_code r)) (text r)
      (headers_get (str "date") (str "unknown") (headers r)).
Proof.
  unfold error_details, error_payload. repeat rewrite <- app_assoc. reflexivity.
Qed.

(** A header that is not there, whatever the case of its name, gives the
    default. *)
Lemma headers_get_absent name default hs :
  (forall k v, In (k, v) hs -> lower k <> lower name) ->
  headers_get name default hs = default.
Proof.
  induction hs as [|[k v] hs IH]; intros H; cbn [headers_get]; [reflexivity|].
  unfold pystr_eqb. rewrite bool_decide_eq_false_2 by (apply (H k v); now left).
  apply IH. intros k' v' Hin. apply (H k' v'). now right.
Qed.

(** C5. With [max_retries > 0] and a token [t0] in hand, if the first POST
    is answered 401, the forced refresh returns [t1] and the next POST is
    answered 200 with a body that decodes to [v], then [call_kra_endpoint]
    returns [v]; what it sent is the POST with Bearer [t0], one token
    request, and the POST with Bearer [t1]; the loop ends with token [t1]
    and a retry counter still at 0. *)
Theorem call_kra_endpoint_refresh_once
    url payload app max_retries timeout w t0 w1 r1 t1 w2 r2 v fuel :
  0 < max_retries ->
  fetch_kra_token app false w = (Return t0, w1) ->
  reply (post_replies w 0%nat) = Responded r1 ->
  status_code r1 = 401 ->
  fetch_kra_token app true (answer_post (api_request url payload t0 timeout) w1)
    = (Return t1, w2) ->
  reply (post_replies w 1%nat) = Responded r2 ->
  status_code r2 = 200 ->
  json_loads (text r2) = Some v ->
  (2 <= fuel)%nat ->
  let w3 := answer_post (api_request url payload t1 timeout) w2 in
  call_kra_endpoint fuel url payload app max_retries timeout w = (Some (Return v), w3)
  /\ (exists cfg,
        sent w3 = sent w1 ++ [api_request url payload t0 timeout;
                              token_request cfg;
                              api_request url payload t1 timeout])
  /\ gets_sent w3 = S (gets_sent w1)
  /\ exists st,
       while_loop fuel max_retries (loop_body url payload app max_retries timeout)
         (initial_locals t0) w1 = (Exited st, w3)
       /\ retries st = 0
       /\ token st = t1
       /\ response st = Some r2.
Proof.
  intros Hpos Hf Hr1 Hs1 Hre Hr2 Hs2 Hj Hfuel w3.
  pose proof (fetch_post_replies _ _ _ _ _ Hf) as Hp1.
  pose proof (fetch_post_replies _ _ _ _ _ Hre) as Hp2.
  assert (Hloop :
    while_loop fuel max_retries (loop_body url payload app max_retries timeout)
      (initial_locals t0) w1
    = (Exited (set_response r2 (set_token t1 (set_response r1 (initial_locals t0)))),
       w3)).
  { destruct fuel as [|[|fuel]]; try lia.
    rewrite while_loop_enter by (cbn; lia).
    rewrite (loop_body_401_refreshed _ _ _ _ _ _ _ r1 t1 w2);
      [|now rewrite Hp1|exact Hs1|exact Hre].
    rewrite while_loop_other_status with (r := r2); try (cbn; lia).
    - reflexivity.
    - rewrite Hp2. cbn [answer_post post_replies]. now rewrite Hp1. }
  split; [|split; [|split]].
  - unfold call_kra_endpoint. rewrite Hf, Hloop.
    cbv beta iota zeta delta [after_loop set_response response].
    rewrite (ok_200 _ Hs2). cbn [negb]. unfold response_json. now rewrite Hj.
  - apply fetch_forced_return in Hre as (cfg & _ & _ & _ & _ & _ & _ & _ & ->).
    exists cfg. subst w3. cbn [answer_post store answer_get sent].
    now rewrite <- !app_assoc.
  - apply fetch_forced_return in Hre as (cfg & _ & _ & _ & _ & _ & _ & _ & ->).
    subst w3. unfold api_request, token_request.
    now rewrite gets_sent_post, <- (gets_sent_post w1 url payload
      {| content_type := str "application/json"; authorization := Bearer t0;
         accept := str "application/json" |} false timeout), <- gets_sent_get
      with (url := token_url cfg)
           (params := [(str "grant_type", str "client_credentials")])
           (auth := (consumer_key cfg, consumer_secret cfg)) (v := false).
  - eexists. split; [exact Hloop|]. repeat split.
Qed.

Lemma call_kra_endpoint_refresh_once_witness :
  let t0 := JStr (str "T1") in
  let t1 := JStr (str "T2") in
  let w2 := snd (fetch_kra_token app1 true
                   (answer_post (api_request pin_url pin_payload t0 60)
                      world_401_then_200)) in
  let w3 := answer_post (api_request pin_url pin_payload t1 60) w2 in
  call_kra_endpoint 2 pin_url pin_payload app1 5 60 world_401_then_200
    = (Some (Return (JObj [(str "ok", JBool true)])), w3)
  /\ (exists cfg,
        sent w3 = sent world_401_then_200
                  ++ [api_request pin_url pin_payload t0 60;
                      token_request cfg;
                      api_request pin_url pin_payload t1 60])
  /\ gets_sent w3 = S (gets_sent world_401_then_200)
  /\ exists st,
       while_loop 2 5 (loop_body pin_url pin_payload app1 5 60)
         (initial_locals t0) world_401_then_200 = (Exited st, w3)
       /\ retries st = 0
       /\ token st = t1
       /\ response st = Some (plain 200 ok_true_body).
Proof.
  apply (call_kra_endpoint_refresh_once pin_url pin_payload app1 5 60
           world_401_then_200 (JStr (str "T1")) world_401_then_200
           (plain 401 []) (JStr (str "T2")) _ (plain 200 ok_true_body)
           (JObj [(str "ok", JBool true)]) 2%nat).
  - lia.
  - reflexivity.
  - reflexivity.
  - reflexivity.
  - reflexivity.
  - reflexivity.
  - reflexivity.
  - reflexivity.
  - lia.
Defined.

(** C6. With [max_retries = 5] and a token in hand, if the first three
    POSTs are answered 504 and the fourth 200 with the body [{"ok":true}],
    then [call_kra_endpoint] sends the POST four times, sends nothing
    else, and returns the dict [{"ok": True}]. *)
Theorem call_kra_endpoint_third_retry_succeeds
    url payload app timeout w t w1 r1 r2 r3 r4 fuel :
  fetch_kra_token app false w = (Return t, w1) ->
  reply (post_replies w 0%nat) = Responded r1 -> status_code r1 = 504 ->
  reply (post_replies w 1%nat) = Responded r2 -> status_code r2 = 504 ->
  reply (post_replies w 2%nat) = Responded r3 -> status_code r3 = 504 ->
  reply (post_replies w 3%nat) = Responded r4 -> status_code r4 = 200 ->
  text r4 = ok_true_body ->
  (4 <= fuel)%nat ->
  let w' := post_n (api_request url payload t timeout) 4 w1 in
  call_kra_endpoint fuel url payload app 5 timeout w
    = (Some (Return (JObj [(str "ok", JBool true)])), w')
  /\ sent w' = sent w1 ++ repeat (api_request url payload t timeout) 4
  /\ posts_sent w' = (posts_sent w1 + 4)%nat.
Proof.
  intros Hf Hr1 Hs1 Hr2 Hs2 Hr3 Hs3 Hr4 Hs4 Hbody Hfuel w'.
  pose proof (fetch_post_replies _ _ _ _ _ Hf) as Hp.
  split; [|split; [apply sent_post_n|apply posts_sent_post_n]].
  unfold call_kra_endpoint. rewrite Hf.
  do 4 (destruct fuel as [|fuel]; [lia|]).
  rewrite while_loop_504_again with (r := r1);
    [|cbn; lia|now rewrite Hp|exact Hs1].
  rewrite while_loop_504_again with (r := r2);
    [|cbn; lia|cbn [answer_post post_replies]; now rewrite Hp|exact Hs2].
  rewrite while_loop_504_again with (r := r3);
    [|cbn; lia|cbn [answer_post post_replies]; now rewrite Hp|exact Hs3].
  rewrite while_loop_other_status with (r := r4);
    [|cbn; lia|cbn [answer_post post_replies]; now rewrite Hp|lia|lia].
  cbv beta iota zeta delta [after_loop set_response response].
  rewrite (ok_200 _ Hs4). cbn [negb]. unfold response_json. rewrite Hbody.
  reflexivity.
Qed.

Lemma call_kra_endpoint_third_retry_succeeds_witness :
  let w' := post_n (api_request pin_url pin_payload (JStr (str "T1")) 60) 4
              world_504_504_504_200 in
  call_kra_endpoint 4 pin_url pin_payload app1 5 60 world_504_504_504_200
    = (Some (Return (JObj [(str "ok", JBool true)])), w')
  /\ sent w' = sent world_504_504_504_200
               ++ repeat (api_request pin_url pin_payload (JStr (str "T1")) 60) 4
  /\ posts_sent w' = (posts_sent world_504_504_504_200 + 4)%nat.
Proof.
  apply (call_kra_endpoint_third_retry_succeeds pin_url pin_payload app1 60
           world_504_504_504_200 (JStr (str "T1")) world_504_504_504_200
           (plain 504 []) (plain 504 []) (plain 504 []) (plain 200 ok_true_body)
           4%nat).
  - reflexivity.
  - reflexivity.
  - reflexivity.
  - reflexivity.
  - reflexivity.
  - reflexivity.
  - reflexivity.
  - reflexivity.
  - reflexivity.
  - reflexivity.
  - lia.
Defined.

(** C7. Whenever a POST of the loop is answered with a status other than
    401 and 504, at the first pass or a later one, the loop ends after that
    POST with the retry counter as it was (0 on the first pass). When that
    response is not [ok], what follows the loop raises the UpstreamError
    whose message has the x-request-id header or unknown as requestId, the
    status as code, the body text as message and the date header or unknown
    as timestamp; and this is how [call_kra_endpoint] ends when it happens
    on its first POST. *)
Theorem call_kra_endpoint_other_status url payload app max_retries timeout st w r fuel :
  retries st < max_retries ->
  reply (post_replies w 0%nat) = Responded r ->
  status_code r <> 401 ->
  status_code r <> 504 ->
  let w' := answer_post (HttpPost url payload (hdrs_of st) false timeout) w in
  let e := UpstreamError
             (error_payload
                (headers_get (str "x-request-id") (str "unknown") (headers r))
                (str_of_Z (status_code r))
                (text r)
                (headers_get (str "date") (str "unknown") (headers r))) in
  while_loop (S fuel) max_retries (loop_body url payload app max_retries timeout) st w
    = (Exited (set_response r st), w')
  /\ retries (set_response r st) = retries st
  /\ posts_sent w' = S (posts_sent w)
  /\ (ok r = false ->
      after_loop (set_response r st) w' = (Raise e, w')
      /\ forall w0 t,
           fetch_kra_token app false w0 = (Return t, w) ->
           st = initial_locals t ->
           call_kra_endpoint (S fuel) url payload app max_retries timeout w0
           = (Some (Raise e), w')).
Proof.
  intros Hlt Hr H401 H504 w' e.
  pose proof (while_loop_other_status url payload app max_retries timeout
                fuel st w r Hlt Hr H401 H504) as Hloop.
  split; [exact Hloop|]. split; [reflexivity|].
  split; [apply posts_sent_post|].
  intros Hok.
  assert (Hafter : after_loop (set_response r st) w' = (Raise e, w')).
  { cbv beta iota zeta delta [after_loop set_response response].
    rewrite Hok. cbn [negb]. unfold raise. subst e.
    now rewrite error_details_layout. }
  split; [exact Hafter|].
  intros w0 t Hf ->.
  unfold call_kra_endpoint. rewrite Hf, Hloop. fold w'. now rewrite Hafter.
Qed.

Lemma call_kra_endpoint_other_status_witness :
  let t := JStr (str "T1") in
  let w' := answer_post (api_request pin_url pin_payload t 60) world_403 in
  let e := UpstreamError
             (error_payload (str "req-7") (str "403") (str "Forbidden")
                (str "unknown")) in
  while_loop 1 5 (loop_body pin_url pin_payload app1 5 60) (initial_locals t)
    world_403 = (Exited (set_response forbidden (initial_locals t)), w')
  /\ retries (set_response forbidden (initial_locals t)) = 0
  /\ posts_sent w' = 1%nat
  /\ call_kra_endpoint 1 pin_url pin_payload app1 5 60 world_403
     = (Some (Raise e), w').
Proof.
  destruct (call_kra_endpoint_other_status pin_url pin_payload app1 5 60
              (initial_locals (JStr (str "T1"))) world_403 forbidden 0%nat)
    as (Hloop & Hretries & Hposts & Hnot_ok).
  - cbn. lia.
  - reflexivity.
  - discriminate.
  - discriminate.
  - destruct (Hnot_ok eq_refl) as [_ Hcall].
    split; [exact Hloop|]. split; [exact Hretries|]. split; [exact Hposts|].
    exact (Hcall world_403 (JStr (str "T1")) eq_refl eq_refl).
Defined.

(** The fields of that message for the sample 403: the request id is found
    under its capitalised name, there is no date. *)
Lemma forbidden_fields :
  headers_get (str "x-request-id") (str "unknown") (headers forbidden) = str "req-7"
  /\ str_of_Z (status_code forbidden) = str "403"
  /\ headers_get (str "date") (str "unknown") (headers forbidden) = str "unknown"
  /\ ok forbidden = false.
Proof. repeat split. Qed.

(** * Further properties *)

(** ** [fetch_kra_token] beyond the claims *)


(** What a call does to the world, whatever it returns: the settings stay,
    only the app's own cache entry may change, and at most the token
    request goes out. *)
Lemma fetch_footprint app force w r w' :
  fetch_kra_token app force w = (r, w') ->
  KRA_APPS w' = KRA_APPS w
  /\ (forall k, k <> cache_key app -> cache w' !! k = cache w !! k)
  /\ (sent w' = sent w
      \/ exists cfg, KRA_APPS w !! app = Some cfg
                     /\ sent w' = sent w ++ [token_request cfg]).
Proof.
  assert (Hforced : forall r w', fetch_kra_token app true w = (r, w') ->
    KRA_APPS w' = KRA_APPS w
    /\ (forall k, k <> cache_key app -> cache w' !! k = cache w !! k)
    /\ (sent w' = sent w
        \/ exists cfg, KRA_APPS w !! app = Some cfg
                       /\ sent w' = sent w ++ [token_request cfg])).
  { clear. intros r w'.
    destruct (KRA_APPS w !! app) as [cfg|] eqn:Hcfg.
    2: { rewrite (fetch_forced_unknown_app _ _ Hcfg). intros [= _ <-].
         repeat split. now left. }
    rewrite (fetch_forced_eq _ _ _ Hcfg). cbv zeta.
    assert (Hget :
      KRA_APPS (answer_get (token_request cfg) w) = KRA_APPS w
      /\ (forall k, k <> cache_key app ->
            cache (answer_get (token_request cfg) w) !! k = cache w !! k)
      /\ (sent (answer_get (token_request cfg) w) = sent w
          \/ exists cfg', Some cfg = Some cfg'
               /\ sent (answer_get (token_request cfg) w)
                  = sent w ++ [token_request cfg'])).
    { repeat split. right. now exists cfg. }
    destruct (reply (get_replies w 0%nat)) as [x|msg|msg];
      try (intros [= _ <-]; exact Hget).
    destruct (ok x); try (intros [= _ <-]; exact Hget).
    destruct (json_loads (text x)) as [v|]; try (intros [= _ <-]; exact Hget).
    destruct v; try (intros [= _ <-]; exact Hget).
    intros [= _ <-]. split; [reflexivity|]. split.
    - intros k Hk. cbn [store cache answer_get]. now rewrite lookup_insert_ne.
    - right. now exists cfg. }
  destruct force; [apply Hforced|].
  rewrite fetch_unforced_cached.
  destruct (cached_token app w); [|apply Hforced].
  intros [= _ <-]. repeat split. now left.
Qed.

Lemma fetch_posts_sent app force w r w' :
  fetch_kra_token app force w = (r, w') ->
  posts_sent w' = posts_sent w /\ (gets_sent w' <= S (gets_sent w))%nat.
Proof.
  intros H. destruct (fetch_footprint _ _ _ _ _ H) as (_ & _ & Hs).
  unfold posts_sent, gets_sent.
  destruct Hs as [E | (cfg & _ & E)]; rewrite E; [split; lia|].
  rewrite !List.filter_app, !length_app. cbn. lia.
Qed.

(** X1. The app's configuration is looked up only when the cache does not
    answer: for an app that [settings.KRA_APPS] does not have, a forced
    call raises "Invalid app selection" and an unforced one still serves a
    live cached token; either way nothing is sent and the world is as
    before. *)
Theorem fetch_kra_token_unknown_app app w :
  KRA_APPS w !! app = None ->
  fetch_kra_token app true w = (Raise (InvalidAppSelection app), w)
  /\ fetch_kra_token app false w =
       match cached_token app w with
       | Some t => (Return t, w)
       | None => (Raise (InvalidAppSelection app), w)
       end.
Proof.
  intros Hcfg. split; [now apply fetch_forced_unknown_app|].
  rewrite fetch_unforced_cached.
  destruct (cached_token app w); [reflexivity|].
  now apply fetch_forced_unknown_app.
Qed.

Lemma fetch_kra_token_unknown_app_witness :
  fetch_kra_token app1 true world_no_apps
    = (Raise (InvalidAppSelection app1), world_no_apps)
  /\ fetch_kra_token app2 false world_no_apps
    = (Raise (InvalidAppSelection app2), world_no_apps)
  /\ fetch_kra_token app1 false world_no_apps
    = (Return (JStr (str "T1")), world_no_apps).
Proof.
  destruct (fetch_kra_token_unknown_app app1 world_no_apps eq_refl) as [H1 H2].
  destruct (fetch_kra_token_unknown_app app2 world_no_apps eq_refl) as [_ H3].
  split; [exact H1|]. split; [exact H3|exact H2].
Defined.

(** X2. When the token endpoint answers with a status that is not [ok], a
    forced call raises "Token request failed: " with the response body,
    after the one GET, and the cache is not touched: a token that was
    cached before and has not expired meanwhile is still what an unforced
    call returns afterwards. *)
Theorem fetch_kra_token_rejected_keeps_old_token app w cfg r t expires_at :
  KRA_APPS w !! app = Some cfg ->
  reply (get_replies w 0%nat) = Responded r ->
  ok r = false ->
  cache w !! cache_key app = Some (t, expires_at) ->
  truthy t = true ->
  now w + Z.of_N (elapsed (get_replies w 0%nat)) < expires_at ->
  let w1 := answer_get (token_request cfg) w in
  fetch_kra_token app true w = (Raise (TokenRequestRejected (text r)), w1)
  /\ cache w1 = cache w
  /\ fetch_kra_token app false w1 = (Return t, w1).
Proof.
  intros Hcfg Hr Hok Hc Ht Hlive w1.
  split; [|split; [reflexivity|]].
  - rewrite (fetch_forced_eq _ _ _ Hcfg). cbv zeta. now rewrite Hr, Hok.
  - rewrite fetch_unforced_eq. subst w1. cbn [answer_get cache now].
    rewrite Hc, Ht. apply Z.ltb_lt in Hlive. now rewrite Hlive.
Qed.

Lemma fetch_kra_token_rejected_keeps_old_token_witness :
  let w1 := answer_get (token_request app1_config) world_T1_endpoint_down in
  fetch_kra_token app1 true world_T1_endpoint_down
    = (Raise (TokenRequestRejected (str "down")), w1)
  /\ cache w1 = cache world_T1_endpoint_down
  /\ fetch_kra_token app1 false w1 = (Return (JStr (str "T1")), w1).
Proof.
  apply (fetch_kra_token_rejected_keeps_old_token app1 world_T1_endpoint_down
           app1_config (plain 500 (str "down")) (JStr (str "T1")) 4000);
    reflexivity.
Defined.

(** X3. When the GET to the token endpoint itself fails (a timeout or any
    other [requests.RequestException]), a forced call raises "Token
    request failed: " around that exception, and the cache is not
    touched. *)
Theorem fetch_kra_token_transport_error app w cfg e :
  KRA_APPS w !! app = Some cfg ->
  raise_or_respond (reply (get_replies w 0%nat)) = Raise e ->
  fetch_kra_token app true w
    = (Raise (TokenRequestFailed e), answer_get (token_request cfg) w)
  /\ is_RequestException e = true
  /\ cache (answer_get (token_request cfg) w) = cache w.
Proof.
  intros Hcfg He. rewrite (fetch_forced_eq _ _ _ Hcfg). cbv zeta.
  destruct (reply (get_replies w 0%nat)) as [r|msg|msg]; cbn in He;
    try discriminate; injection He as <-; repeat split.
Qed.

Lemma fetch_kra_token_transport_error_witness :
  fetch_kra_token app1 true world_endpoint_unreachable
    = (Raise (TokenRequestFailed (RequestsError (str "Connection refused"))),
       answer_get (token_request app1_config) world_endpoint_unreachable)
  /\ is_RequestException (RequestsError (str "Connection refused")) = true
  /\ cache (answer_get (token_request app1_config) world_endpoint_unreachable)
     = cache world_endpoint_unreachable.
Proof.
  apply (fetch_kra_token_transport_error app1 world_endpoint_unreachable
           app1_config (RequestsError (str "Connection refused")));
    reflexivity.
Defined.


(** X5. Whatever the path, a token that [fetch_kra_token] returns is, in
    the world it leaves, the live cached token of the app: it passes
    [if token:] (so it is not empty) and an unforced call right after
    returns it again without any request. *)
Theorem fetch_kra_token_returns_live_token app force w t w' :
  fetch_kra_token app force w = (Return t, w') ->
  cached_token app w' = Some t
  /\ truthy t = true
  /\ fetch_kra_token app false w' = (Return t, w').
Proof.
  intros H.
  pose proof (fetch_return_truthy _ _ _ _ _ H) as Ht.
  assert (Hc : cached_token app w' = Some t).
  { destruct force.
    - apply fetch_forced_return in H as (cfg & r & m & _ & _ & _ & _ & _ & ->).
      unfold cached_token. cbn [store cache now answer_get].
      rewrite lookup_insert_eq, Ht.
      replace (_ <? _) with true; [reflexivity|].
      symmetry. apply Z.ltb_lt. lia.
    - rewrite fetch_unforced_cached in H.
      destruct (cached_token app w) as [t0|] eqn:E.
      + now injection H as <- <-.
      + apply fetch_forced_return in H as (cfg & r & m & _ & _ & _ & _ & _ & ->).
        unfold cached_token. cbn [store cache now answer_get].
        rewrite lookup_insert_eq, Ht.
        replace (_ <? _) with true; [reflexivity|].
        symmetry. apply Z.ltb_lt. lia. }
  split; [exact Hc|]. split; [exact Ht|].
  now rewrite fetch_unforced_cached, Hc.
Qed.

Lemma fetch_kra_token_returns_live_token_witness :
  let w' := snd (fetch_kra_token app1 true world_T1_then_T2) in
  cached_token app1 w' = Some (JStr (str "T2"))
  /\ truthy (JStr (str "T2")) = true
  /\ fetch_kra_token app1 false w' = (Return (JStr (str "T2")), w').
Proof.
  apply (fetch_kra_token_returns_live_token app1 true world_T1_then_T2).
  reflexivity.
Defined.





(** X8. A body that decodes to something other than a JSON object (a
    quoted string, a list, a number, true, false or null) is refused too:
    the call raises "Failed to get access token: ..." for the missing
    [get] method, and nothing is cached. *)
Theorem fetch_kra_token_not_an_object app w cfg r v :
  KRA_APPS w !! app = Some cfg ->
  reply (get_replies w 0%nat) = Responded r ->
  ok r = true ->
  json_loads (text r) = Some v ->
  (forall members, v <> JObj members) ->
  fetch_kra_token app true w
    = (Raise (FailedToGetAccessToken AttributeError),
       answer_get (token_request cfg) w)
  /\ cache (answer_get (token_request cfg) w) = cache w.
Proof.
  intros Hcfg Hr Hok Hj Hv. split; [|reflexivity].
  rewrite (fetch_forced_eq _ _ _ Hcfg). cbv zeta. rewrite Hr, Hok, Hj.
  destruct v; try reflexivity. now destruct (Hv members).
Qed.

Lemma fetch_kra_token_not_an_object_witness :
  fetch_kra_token app1 true world_token_list
    = (Raise (FailedToGetAccessToken AttributeError),
       answer_get (token_request app1_config) world_token_list)
  /\ cache (answer_get (token_request app1_config) world_token_list)
     = cache world_token_list.
Proof.
  apply (fetch_kra_token_not_an_object app1 world_token_list app1_config
           (plain 200 (str "[1]")) (JArr [JInt 1])).
  - reflexivity.
  - reflexivity.
  - reflexivity.
  - reflexivity.
  - discriminate.
Defined.

(** X9. A call of [fetch_kra_token] sends at most one request, the token
    GET with the app's URL, credentials and grant type, and never a POST;
    it sends none when it answers from the cache. *)
Theorem fetch_kra_token_requests app force w r w' :
  fetch_kra_token app force w = (r, w') ->
  (sent w' = sent w
   \/ exists cfg, KRA_APPS w !! app = Some cfg
                  /\ sent w' = sent w ++ [token_request cfg])
  /\ posts_sent w' = posts_sent w
  /\ (gets_sent w' <= S (gets_sent w))%nat
  /\ (force = false -> forall t, cached_token app w = Some t -> sent w' = sent w).
Proof.
  intros H.
  destruct (fetch_footprint _ _ _ _ _ H) as (_ & _ & Hs).
  split; [exact Hs|].
  destruct (fetch_posts_sent _ _ _ _ _ H) as [Hp Hg].
  split; [exact Hp|]. split; [exact Hg|].
  intros -> t Ht. rewrite fetch_unforced_cached, Ht in H.
    now injection H as _ <-.
Qed.

Lemma fetch_kra_token_requests_witness :
  let w' := snd (fetch_kra_token app1 true world_T1_then_T2) in
  (sent w' = sent world_T1_then_T2
   \/ exists cfg, KRA_APPS world_T1_then_T2 !! app1 = Some cfg
                  /\ sent w' = sent world_T1_then_T2 ++ [token_request cfg])
  /\ posts_sent w' = posts_sent world_T1_then_T2
  /\ (gets_sent w' <= S (gets_sent world_T1_then_T2))%nat
  /\ (true = false -> forall t, cached_token app1 world_T1_then_T2 = Some t ->
      sent w' = sent world_T1_then_T2).
Proof.
  apply (fetch_kra_token_requests app1 true world_T1_then_T2
           (fst (fetch_kra_token app1 true world_T1_then_T2))).
  reflexivity.
Defined.

(** X10. The window of the cache is 3600 seconds, closed at the start and
    open at the end: after a call that fetched a token, an unforced call
    made [d] seconds after the write returns it from the cache when
    [0 <= d < 3600], and goes to the token endpoint again, exactly as a
    forced call would, when [d >= 3600]. *)
Theorem fetch_kra_token_ttl_window app w t w1 d :
  fetch_kra_token app true w = (Return t, w1) ->
  0 <= d ->
  (d < 3600 -> fetch_kra_token app false (later d w1) = (Return t, later d w1))
  /\ (3600 <= d ->
      fetch_kra_token app false (later d w1) = fetch_kra_token app true (later d w1)).
Proof.
  intros H Hd.
  pose proof (fetch_return_truthy _ _ _ _ _ H) as Ht.
  apply fetch_forced_return in H as (cfg & r & m & _ & _ & _ & _ & _ & ->).
  split; intros Hw; rewrite fetch_unforced_eq;
    cbn [later store answer_get cache now]; rewrite lookup_insert_eq.
  - replace (_ <? _) with true by (symmetry; apply Z.ltb_lt; lia).
    now rewrite Ht.
  - now replace (_ <? _) with false by (symmetry; apply Z.ltb_ge; lia).
Qed.

Lemma fetch_kra_token_ttl_window_witness :
  let w1 := snd (fetch_kra_token app1 true world_T1_then_T2) in
  fetch_kra_token app1 false (later 3599 w1)
  = (Return (JStr (str "T2")), later 3599 w1)
  /\ fetch_kra_token app1 false (later 3600 w1)
     = fetch_kra_token app1 true (later 3600 w1).
Proof.
  destruct (fetch_kra_token_ttl_window app1 world_T1_then_T2 (JStr (str "T2"))
              (snd (fetch_kra_token app1 true world_T1_then_T2)) 3599)
    as [Hin _]; [reflexivity|lia|].
  destruct (fetch_kra_token_ttl_window app1 world_T1_then_T2 (JStr (str "T2"))
              (snd (fetch_kra_token app1 true world_T1_then_T2)) 3600)
    as [_ Hout]; [reflexivity|lia|].
  split; [apply Hin|apply Hout]; lia.
Defined.

(** ** [call_kra_endpoint] beyond the claims *)

Lemma call_kra_endpoint_no_budget_witness :
  call_kra_endpoint 3 pin_url pin_payload app1 0 60 world_401_forever
  = (Some (Raise UnboundLocalError), world_401_forever).
Proof.
  apply (call_kra_endpoint_no_budget 3 pin_url pin_payload app1 0 60
           world_401_forever (JStr (str "T1")) world_401_forever).
  - lia.
  - reflexivity.
Defined.

Lemma call_kra_endpoint_refresh_fails_witness :
  call_kra_endpoint 1 pin_url pin_payload app1 5 60 world_401_endpoint_down
  = (Some (Raise (TokenRequestRejected (str "down"))),
     snd (fetch_kra_token app1 true
            (answer_post (api_request pin_url pin_payload (JStr (str "T1")) 60)
               world_401_endpoint_down))).
Proof.
  apply (call_kra_endpoint_refresh_fails 0 pin_url pin_payload app1 5 60
           world_401_endpoint_down (JStr (str "T1")) world_401_endpoint_down
           (plain 401 [])).
  - lia.
  - reflexivity.
  - reflexivity.
  - reflexivity.
  - reflexivity.
Defined.

Lemma after_loop_world st w : snd (after_loop st w) = w.
Proof.
  unfold after_loop. destruct (response st) as [r|]; [|reflexivity].
  destruct (negb (ok r)); [reflexivity|].
  unfold response_json. now destruct (json_loads (text r)).
Qed.

(** X13. When the token cannot be had, nothing is forwarded: the exception
    of [fetch_kra_token] is what [call_kra_endpoint] raises, unwrapped, and
    no POST goes out. *)
Theorem call_kra_endpoint_token_failure fuel url payload app max_retries timeout w e w1 :
  fetch_kra_token app false w = (Raise e, w1) ->
  call_kra_endpoint fuel url payload app max_retries timeout w = (Some (Raise e), w1)
  /\ posts_sent w1 = posts_sent w
  /\ cache w1 = cache w.
Proof.
  intros H. split; [|split].
  - unfold call_kra_endpoint. now rewrite H.
  - exact (proj1 (fetch_posts_sent _ _ _ _ _ H)).
  - exact (fetch_raise_cache _ _ _ _ _ H).
Qed.

Lemma call_kra_endpoint_token_failure_witness :
  call_kra_endpoint 5 pin_url pin_payload app1 5 60 world_empty_body
  = (Some (Raise (FailedToGetAccessToken JSONDecodeError)),
     answer_get (token_request app1_config) world_empty_body)
  /\ posts_sent (answer_get (token_request app1_config) world_empty_body)
     = posts_sent world_empty_body
  /\ cache (answer_get (token_request app1_config) world_empty_body)
     = cache world_empty_body.
Proof.
  apply (call_kra_endpoint_token_failure 5 pin_url pin_payload app1 5 60
           world_empty_body).
  reflexivity.
Defined.

(** *** Transient failures, one retry each *)

Lemma transient_next rq w n :
  (forall k, (k < S n)%nat -> transient (post_replies w k)) ->
  forall k, (k < n)%nat -> transient (post_replies (answer_post rq w) k).
Proof. intros H k Hk. apply (H (S k)). lia. Qed.

(** [n] transient failures with budget to spare take [n] passes, [n] POSTs
    and [n] retries, and leave token and headers alone. *)
Lemma while_loop_transients url payload app max_retries timeout n :
  forall fuel st w,
    (forall k, (k < n)%nat -> transient (post_replies w k)) ->
    retries st + Z.of_nat n < max_retries ->
    exists st',
      while_loop (n + fuel) max_retries
        (loop_body url payload app max_retries timeout) st w
      = while_loop fuel max_retries
          (loop_body url payload app max_retries timeout) st'
          (post_n (HttpPost url payload (hdrs_of st) false timeout) n w)
      /\ retries st' = retries st + Z.of_nat n
      /\ token st' = token st
      /\ hdrs_of st' = hdrs_of st.
Proof.
  induction n as [|n IH]; intros fuel st w Htr Hn.
  - exists st. cbn [post_n Nat.add]. repeat split. lia.
  - cbn [Nat.add post_n].
    destruct (Htr 0%nat ltac:(lia)) as [[msg Hmsg] | (r & Hr & Hs)].
    + rewrite while_loop_enter by lia.
      rewrite (loop_body_timeout _ _ _ _ _ _ _ _ Hmsg).
      replace (retries st + 1 >=? max_retries) with false.
      2: { symmetry. rewrite Z.geb_leb. apply Z.leb_gt. lia. }
      destruct (IH fuel (set_retries (retries st + 1) st)
                  (answer_post (HttpPost url payload (hdrs_of st) false timeout) w))
        as (st' & E & R & T & H).
      * now apply transient_next.
      * cbn [set_retries retries]. lia.
      * exists st'. split; [exact E|]. cbn [set_retries retries token hdrs_of] in *.
        repeat split; (assumption || lia).
    + rewrite while_loop_504_again with (r := r) by (assumption || lia).
      destruct (IH fuel (set_retries (retries st + 1) (set_response r st))
                  (answer_post (HttpPost url payload (hdrs_of st) false timeout) w))
        as (st' & E & R & T & H).
      * now apply transient_next.
      * cbn [set_retries set_response retries]. lia.
      * exists st'. split; [exact E|].
        cbn [set_retries set_response retries token hdrs_of] in *.
        repeat split; (assumption || lia).
Qed.

(** *** The budget bounds the loop when no 401 comes *)

Lemma never_401_next rq w : never_401 w -> never_401 (answer_post rq w).
Proof. intros H k r. exact (H (S k) r). Qed.

Lemma while_loop_never_401 url payload app max_retries timeout n :
  forall fuel st w,
    never_401 w ->
    max_retries - retries st <= Z.of_nat n ->
    (n <= fuel)%nat ->
    exists out w',
      while_loop fuel max_retries (loop_body url payload app max_retries timeout) st w
      = (out, w')
      /\ (forall st', out <> Running st')
      /\ (posts_sent w' <= posts_sent w + n)%nat
      /\ gets_sent w' = gets_sent w
      /\ cache w' = cache w.
Proof.
  induction n as [|n IH]; intros fuel st w H401 Hn Hfuel.
  - rewrite while_loop_skip by lia.
    eexists _, _. split; [reflexivity|]. repeat split; (discriminate || lia).
  - destruct (Z.le_gt_cases max_retries (retries st)) as [Hdone|Hlt].
    { rewrite while_loop_skip by lia.
      eexists _, _. split; [reflexivity|]. repeat split; (discriminate || lia). }
    destruct fuel as [|fuel]; [lia|].
    rewrite while_loop_enter by lia.
    pose proof (posts_sent_post w url payload (hdrs_of st) false timeout) as Hp.
    pose proof (gets_sent_post w url payload (hdrs_of st) false timeout) as Hg.
    destruct (reply (post_replies w 0%nat)) as [r|msg|msg] eqn:Hr.
    + pose proof (H401 0%nat r Hr) as Hne.
      destruct (Z.eq_dec (status_code r) 504) as [H504|H504].
      * rewrite (loop_body_504 _ _ _ _ _ _ _ _ Hr H504).
        destruct (retries st + 1 <? max_retries) eqn:Hb.
        -- destruct (IH fuel (set_retries (retries st + 1) (set_response r st))
                       (answer_post (HttpPost url payload (hdrs_of st) false timeout) w))
             as (out & w' & E & Hrun & P & G & C).
           ++ now apply never_401_next.
           ++ cbn [set_retries set_response retries]. lia.
           ++ lia.
           ++ exists out, w'. split; [exact E|]. split; [exact Hrun|].
              rewrite G, C. repeat split; (assumption || lia).
        -- eexists _, _. split; [reflexivity|].
           repeat split; (discriminate || assumption || lia).
      * rewrite (loop_body_other _ _ _ _ _ _ _ _ Hr Hne H504).
        eexists _, _. split; [reflexivity|].
        repeat split; (discriminate || assumption || lia).
    + rewrite (loop_body_timeout _ _ _ _ _ _ _ _ Hr).
      destruct (retries st + 1 >=? max_retries) eqn:Hb.
      * eexists _, _. split; [reflexivity|].
        repeat split; (discriminate || assumption || lia).
      * rewrite Z.geb_leb in Hb. apply Z.leb_gt in Hb.
        destruct (IH fuel (set_retries (retries st + 1) st)
                    (answer_post (HttpPost url payload (hdrs_of st) false timeout) w))
          as (out & w' & E & Hrun & P & G & C).
        -- now apply never_401_next.
        -- cbn [set_retries retries]. lia.
        -- lia.
        -- exists out, w'. split; [exact E|]. split; [exact Hrun|].
           rewrite G, C. repeat split; (assumption || lia).
    + rewrite (loop_body_broken _ _ _ _ _ _ _ _ Hr).
      eexists _, _. split; [reflexivity|].
      repeat split; (discriminate || assumption || lia).
Qed.

Lemma post_n_last rq n w : post_n rq (S n) w = answer_post rq (post_n rq n w).
Proof.
  revert w. induction n as [|n IH]; intros w; [reflexivity|].
  change (post_n rq (S (S n)) w) with (post_n rq (S n) (answer_post rq w)).
  now rewrite IH.
Qed.

Lemma post_replies_post_n rq n w k :
  post_replies (post_n rq n w) k = post_replies w (n + k)%nat.
Proof.
  revert w k. induction n as [|n IH]; intros w k; [reflexivity|].
  cbn [post_n]. rewrite IH. reflexivity.
Qed.


Lemma call_bounded_without_401 fuel url payload app max_retries timeout w :
  never_401 w ->
  (Z.to_nat max_retries <= fuel)%nat ->
  exists r w',
    call_kra_endpoint fuel url payload app max_retries timeout w = (Some r, w')
    /\ (posts_sent w' <= posts_sent w + Z.to_nat max_retries)%nat
    /\ (gets_sent w' <= S (gets_sent w))%nat.
Proof.
  intros H401 Hfuel. unfold call_kra_endpoint.
  destruct (fetch_kra_token app false w) as [[t|e] w1] eqn:Hf.
  2: { destruct (fetch_posts_sent _ _ _ _ _ Hf) as [Hp Hg].
       eexists _, _. split; [reflexivity|]. split; lia. }
  destruct (fetch_posts_sent _ _ _ _ _ Hf) as [Hp Hg].
  assert (H401' : never_401 w1).
  { intros k r. rewrite (fetch_post_replies _ _ _ _ _ Hf). apply H401. }
  destruct (while_loop_never_401 url payload app max_retries timeout
              (Z.to_nat max_retries) fuel (initial_locals t) w1 H401')
    as (out & w2 & E & Hrun & P & G & _); [cbn [initial_locals retries]; lia|lia|].
  rewrite E. destruct out as [st|e|st].
  - pose proof (after_loop_world st w2) as Hw.
    destruct (after_loop st w2) as [r w3]. cbn [snd] in Hw. subst w3.
    eexists _, _. split; [reflexivity|]. split; lia.
  - eexists _, _. split; [reflexivity|]. split; lia.
  - now destruct (Hrun st).
Qed.

(** X14. Without a 401 the call always ends, and within its budget: if no
    POST is answered 401, then after at most [max_retries] passes
    [call_kra_endpoint] has returned or raised, having sent at most
    [max_retries] POSTs and at most one token request. *)
Theorem call_kra_endpoint_ends_without_401 fuel url payload app max_retries timeout w :
  never_401 w ->
  (Z.to_nat max_retries <= fuel)%nat ->
  exists r w',
    call_kra_endpoint fuel url payload app max_retries timeout w = (Some r, w')
    /\ (posts_sent w' <= posts_sent w + Z.to_nat max_retries)%nat
    /\ (gets_sent w' <= S (gets_sent w))%nat.
Proof. apply call_bounded_without_401. Qed.

Lemma call_kra_endpoint_ends_without_401_witness :
  exists r w',
    call_kra_endpoint 5 pin_url pin_payload app1 5 60 world_504_504_504_200
      = (Some r, w')
    /\ (posts_sent w' <= posts_sent world_504_504_504_200 + Z.to_nat 5)%nat
    /\ (gets_sent w' <= S (gets_sent world_504_504_504_200))%nat.
Proof.
  apply (call_kra_endpoint_ends_without_401 5 pin_url pin_payload app1 5 60
           world_504_504_504_200).
  - intros k r. cbn [world_504_504_504_200 world post_replies].
    destruct (k <? 3)%nat; intros [= <-]; discriminate.
  - cbn. lia.
Defined.



(** X16. A transport failure other than a timeout is never retried: after
    [n] timeouts or 504s, with [n < max_retries], a POST that fails with
    another [requests.RequestException] ends the call with "Request
    failed: " around that exception, after exactly [n + 1] POSTs. *)
Theorem call_kra_endpoint_transport_error
    n fuel url payload app max_retries timeout w t w1 msg :
  fetch_kra_token app false w = (Return t, w1) ->
  (forall k, (k < n)%nat -> transient (post_replies w k)) ->
  Z.of_nat n < max_retries ->
  reply (post_replies w n) = Broken msg ->
  let w' := post_n (api_request url payload t timeout) (S n) w1 in
  call_kra_endpoint (n + S fuel) url payload app max_retries timeout w
  = (Some (Raise (RequestFailed (RequestsError msg))), w')
  /\ posts_sent w' = (posts_sent w1 + S n)%nat.
Proof.
  intros Hf Htr Hn Hr w'.
  split; [|apply posts_sent_post_n].
  pose proof (fetch_post_replies _ _ _ _ _ Hf) as Hp.
  unfold call_kra_endpoint. rewrite Hf.
  destruct (while_loop_transients url payload app max_retries timeout n (S fuel)
              (initial_locals t) w1) as (st' & E & R & T & H).
  { intros k Hk. rewrite Hp. now apply Htr. }
  { cbn [initial_locals retries]. lia. }
  rewrite E. rewrite while_loop_enter by (cbn [initial_locals retries] in R; lia).
  rewrite (loop_body_broken _ _ _ _ _ _ _ msg)
    by (rewrite post_replies_post_n, Hp, Nat.add_0_r; exact Hr).
  rewrite H. subst w'. rewrite post_n_last. reflexivity.
Qed.

Lemma call_kra_endpoint_transport_error_witness :
  let w' := post_n (api_request pin_url pin_payload (JStr (str "T1")) 60) 2
              world_timeout_then_refused in
  call_kra_endpoint 2 pin_url pin_payload app1 5 60 world_timeout_then_refused
  = (Some (Raise (RequestFailed (RequestsError (str "Connection refused")))), w')
  /\ posts_sent w' = (posts_sent world_timeout_then_refused + 2)%nat.
Proof.
  apply (call_kra_endpoint_transport_error 1 0 pin_url pin_payload app1 5 60
           world_timeout_then_refused (JStr (str "T1")) world_timeout_then_refused
           (str "Connection refused")).
  - reflexivity.
  - intros k Hk. left. exists (str "Read timed out.").
    destruct k as [|k]; [reflexivity|lia].
  - lia.
  - reflexivity.
Defined.

(** X17. When the budget runs out, the last failure decides the error:
    after [max_retries - 1] timeouts or 504s, a last timeout raises
    "Maximum retries reached, request timed out", and a last 504 raises
    the UpstreamError built from that 504 response. Either way exactly
    [max_retries] POSTs were sent. *)
Theorem call_kra_endpoint_budget_spent
    n fuel url payload app max_retries timeout w t w1 :
  fetch_kra_token app false w = (Return t, w1) ->
  (forall k, (k < n)%nat -> transient (post_replies w k)) ->
  max_retries = Z.of_nat n + 1 ->
  let w' := post_n (api_request url payload t timeout) (S n) w1 in
  (forall msg, reply (post_replies w n) = TimedOut msg ->
     call_kra_endpoint (n + S fuel) url payload app max_retries timeout w
     = (Some (Raise MaximumRetriesReached), w'))
  /\ (forall r, reply (post_replies w n) = Responded r -> status_code r = 504 ->
        call_kra_endpoint (n + S fuel) url payload app max_retries timeout w
        = (Some (Raise (UpstreamError
             (error_payload
                (headers_get (str "x-request-id") (str "unknown") (headers r))
                (str "504") (text r)
                (headers_get (str "date") (str "unknown") (headers r))))), w'))
  /\ posts_sent w' = (posts_sent w1 + Z.to_nat max_retries)%nat.
Proof.
  intros Hf Htr Hmax w'.
  pose proof (fetch_post_replies _ _ _ _ _ Hf) as Hp.
  destruct (while_loop_transients url payload app max_retries timeout n (S fuel)
              (initial_locals t) w1) as (st' & E & R & T & H).
  { intros k Hk. rewrite Hp. now apply Htr. }
  { cbn [initial_locals retries]. lia. }
  cbn [initial_locals retries] in R.
  split; [|split].
  - intros msg Hr. unfold call_kra_endpoint. rewrite Hf, E.
    rewrite while_loop_enter by lia.
    rewrite (loop_body_timeout _ _ _ _ _ _ _ msg)
      by (rewrite post_replies_post_n, Hp, Nat.add_0_r; exact Hr).
    replace (retries st' + 1 >=? max_retries) with true
      by (symmetry; apply Z.geb_le; lia).
    rewrite H. subst w'. rewrite post_n_last. reflexivity.
  - intros r Hr Hs. unfold call_kra_endpoint. rewrite Hf, E.
    rewrite while_loop_504_last with (r := r);
      [|lia|lia|rewrite post_replies_post_n, Hp, Nat.add_0_r; exact Hr|exact Hs].
    rewrite H. subst w'. rewrite post_n_last.
    cbv beta iota zeta delta [after_loop set_retries set_response response].
    replace (ok r) with false by (unfold ok; now rewrite Hs).
    cbn [negb]. unfold raise. cbn [request_failed is_RequestException].
    rewrite error_details_layout, Hs. reflexivity.
  - subst w'. unfold api_request. rewrite posts_sent_post_n. lia.
Qed.

Lemma call_kra_endpoint_budget_spent_witness :
  let w' := post_n (api_request pin_url pin_payload (JStr (str "T1")) 60) 3
              world_timeout_then_504 in
  call_kra_endpoint 3 pin_url pin_payload app1 3 60 world_timeout_then_504
  = (Some (Raise (UpstreamError
       (error_payload (str "unknown") (str "504") (str "Gateway Timeout")
          (str "unknown")))), w')
  /\ posts_sent w' = 3%nat.
Proof.
  destruct (call_kra_endpoint_budget_spent 2 0 pin_url pin_payload app1 3 60
              world_timeout_then_504 (JStr (str "T1")) world_timeout_then_504)
    as (_ & H504 & Hposts).
  - reflexivity.
  - intros k Hk. destruct k as [|[|k]]; [| |lia].
    + left. now exists (str "Read timed out.").
    + right. exists (plain 504 (str "Gateway Timeout")). now split.
  - reflexivity.
  - split; [|exact Hposts].
    exact (H504 (plain 504 (str "Gateway Timeout")) eq_refl eq_refl).
Defined.

(** *** What a call touches and what it sends *)

Lemma loop_body_401_refresh_fails url payload app max_retries timeout st w r e w' :
  reply (post_replies w 0%nat) = Responded r ->
  status_code r = 401 ->
  fetch_kra_token app true
    (answer_post (HttpPost url payload (hdrs_of st) false timeout) w) = (Raise e, w') ->
  loop_body url payload app max_retries timeout st w = (Raise e, w').
Proof.
  intros H H1 Hf.
  pose proof (fetch_raise_plain _ _ _ _ _ Hf) as Hplain.
  cbv beta iota zeta delta [loop_body try_except bind requests_post].
  rewrite H. cbn [raise_or_respond]. rewrite H1. cbn [Z.eqb Pos.eqb].
  rewrite Hf. replace (is_Timeout e) with false; [reflexivity|].
  destruct e; try reflexivity; discriminate.
Qed.

Lemma locals_ok_request url payload timeout st :
  locals_ok st ->
  HttpPost url payload (hdrs_of st) false timeout
  = api_request url payload (token st) timeout.
Proof. intros [_ H]. unfold api_request. now rewrite H. Qed.

Lemma loop_body_footprint url payload app max_retries timeout st w res w' :
  locals_ok st ->
  loop_body url payload app max_retries timeout st w = (res, w') ->
  KRA_APPS w' = KRA_APPS w
  /\ (forall k, k <> cache_key app -> cache w' !! k = cache w !! k)
  /\ (exists new,
        sent w' = sent w ++ new
        /\ Forall (expected_request (KRA_APPS w) app url payload timeout) new)
  /\ (forall st', res = Return (Continue st') \/ res = Return (Break st') ->
        locals_ok st').
Proof.
  intros Hst.
  pose proof (locals_ok_request url payload timeout st Hst) as Hrq.
  assert (Hpost : expected_request (KRA_APPS w) app url payload timeout
                    (HttpPost url payload (hdrs_of st) false timeout)).
  { right. exists (token st). split; [apply Hst|exact Hrq]. }
  assert (Hkeep : forall n r0, locals_ok (set_retries n (set_response r0 st))).
  { intros n r0. exact Hst. }
  assert (Hkeep' : forall n, locals_ok (set_retries n st)) by (intros n; exact Hst).
  assert (Hkeep'' : forall r0, locals_ok (set_response r0 st))
    by (intros r0; exact Hst).
  assert (Hplain : forall res0,
    (forall st', res0 = Return (Continue st') \/ res0 = Return (Break st') ->
                 locals_ok st') ->
    (res0, answer_post (HttpPost url payload (hdrs_of st) false timeout) w)
    = (res, w') ->
    KRA_APPS w' = KRA_APPS w
    /\ (forall k, k <> cache_key app -> cache w' !! k = cache w !! k)
    /\ (exists new,
          sent w' = sent w ++ new
          /\ Forall (expected_request (KRA_APPS w) app url payload timeout) new)
    /\ (forall st', res = Return (Continue st') \/ res = Return (Break st') ->
          locals_ok st')).
  { intros res0 Hres [= <- <-]. split; [reflexivity|]. split; [reflexivity|].
    split; [|exact Hres].
    eexists. split; [reflexivity|]. now constructor. }
  destruct (reply (post_replies w 0%nat)) as [r|msg|msg] eqn:Hr.
  - destruct (Z.eq_dec (status_code r) 401) as [H401|H401].
    + destruct (fetch_kra_token app true
                  (answer_post (HttpPost url payload (hdrs_of st) false timeout) w))
        as [[t|e] w2] eqn:Hf.
      * rewrite (loop_body_401_refreshed _ _ _ _ _ _ _ _ _ _ Hr H401 Hf).
        intros [= <- <-].
        pose proof (fetch_return_truthy _ _ _ _ _ Hf) as Ht.
        destruct (fetch_footprint _ _ _ _ _ Hf) as (Hs & Hc & Hsent).
        split; [exact Hs|]. split; [exact Hc|]. split.
        -- destruct Hsent as [E | (cfg & Hcfg & E)]; rewrite E;
             cbn [answer_post sent].
           ++ eexists. split; [reflexivity|]. now constructor.
           ++ eexists. rewrite <- app_assoc. split; [reflexivity|].
              constructor; [exact Hpost|]. constructor; [|constructor].
              left. now exists cfg.
        -- intros st' [[= <-] | [=]]. split; [exact Ht|].
           destruct Hst as [_ Hh]. cbn [set_token set_response hdrs_of token].
           rewrite Hh. reflexivity.
      * rewrite (loop_body_401_refresh_fails _ _ _ _ _ _ _ _ _ _ Hr H401 Hf).
        intros [= <- <-].
        destruct (fetch_footprint _ _ _ _ _ Hf) as (Hs & Hc & Hsent).
        split; [exact Hs|]. split; [exact Hc|]. split.
        -- destruct Hsent as [E | (cfg & Hcfg & E)]; rewrite E;
             cbn [answer_post sent].
           ++ eexists. split; [reflexivity|]. now constructor.
           ++ eexists. rewrite <- app_assoc. split; [reflexivity|].
              constructor; [exact Hpost|]. constructor; [|constructor].
              left. now exists cfg.
        -- intros st' [[=] | [=]].
    + destruct (Z.eq_dec (status_code r) 504) as [H504|H504].
      * rewrite (loop_body_504 _ _ _ _ _ _ _ _ Hr H504). apply Hplain.
        intros st' [E | E]; destruct (retries st + 1 <? max_retries);
          (discriminate || (injection E as <-; apply Hkeep)).
      * rewrite (loop_body_other _ _ _ _ _ _ _ _ Hr H401 H504). apply Hplain.
        intros st' [[=] | [= <-]]. apply Hkeep''.
  - rewrite (loop_body_timeout _ _ _ _ _ _ _ _ Hr).
    destruct (retries st + 1 >=? max_retries); apply Hplain.
    + intros st' [[=] | [=]].
    + intros st' [[= <-] | [=]]. apply Hkeep'.
  - rewrite (loop_body_broken _ _ _ _ _ _ _ _ Hr). apply Hplain.
    intros st' [[=] | [=]].
Qed.

Lemma while_loop_footprint url payload app max_retries timeout fuel :
  forall st w out w',
    locals_ok st ->
    while_loop fuel max_retries (loop_body url payload app max_retries timeout) st w
    = (out, w') ->
    KRA_APPS w' = KRA_APPS w
    /\ (forall k, k <> cache_key app -> cache w' !! k = cache w !! k)
    /\ (exists new,
          sent w' = sent w ++ new
          /\ Forall (expected_request (KRA_APPS w) app url payload timeout) new).
Proof.
  assert (Hnone : forall w : World,
    KRA_APPS w = KRA_APPS w
    /\ (forall k, k <> cache_key app -> cache w !! k = cache w !! k)
    /\ (exists new,
          sent w = sent w ++ new
          /\ Forall (expected_request (KRA_APPS w) app url payload timeout) new)).
  { intros w. repeat split. exists []. split; [now rewrite app_nil_r|constructor]. }
  induction fuel as [|fuel IH]; intros st w out w' Hst; cbn [while_loop];
    destruct (retries st <? max_retries); try (intros [= _ <-]; apply Hnone).
  destruct (loop_body url payload app max_retries timeout st w) as [res w1] eqn:Hb.
  destruct (loop_body_footprint _ _ _ _ _ _ _ _ _ Hst Hb)
    as (Hs & Hc & (new & Hsent & Hall) & Hok).
  destruct res as [[st1|st1]|e]; try (intros [= _ <-]; now eauto).
  intros Hloop.
  destruct (IH st1 w1 out w' (Hok st1 (or_introl eq_refl)) Hloop)
    as (Hs' & Hc' & (new' & Hsent' & Hall')).
  split; [congruence|]. split.
  - intros k Hk. now rewrite Hc', Hc.
  - exists (new ++ new'). split.
    + now rewrite Hsent', Hsent, app_assoc.
    + apply Forall_app. split; [exact Hall|]. now rewrite <- Hs.
Qed.

Lemma call_footprint fuel url payload app max_retries timeout w res w' :
  call_kra_endpoint fuel url payload app max_retries timeout w = (res, w') ->
  KRA_APPS w' = KRA_APPS w
  /\ (forall k, k <> cache_key app -> cache w' !! k = cache w !! k)
  /\ (exists new,
        sent w' = sent w ++ new
        /\ Forall (expected_request (KRA_APPS w) app url payload timeout) new).
Proof.
  unfold call_kra_endpoint.
  destruct (fetch_kra_token app false w) as [[t|e] w1] eqn:Hf;
    destruct (fetch_footprint _ _ _ _ _ Hf) as (Hs & Hc & Hsent).
  2: { intros [= _ <-]. split; [exact Hs|]. split; [exact Hc|].
       destruct Hsent as [E | (cfg & Hcfg & E)]; rewrite E.
       - exists []. split; [now rewrite app_nil_r|constructor].
       - eexists. split; [reflexivity|]. constructor; [|constructor].
         left. now exists cfg. }
  assert (Hfirst : exists new,
    sent w1 = sent w ++ new
    /\ Forall (expected_request (KRA_APPS w) app url payload timeout) new).
  { destruct Hsent as [E | (cfg & Hcfg & E)]; rewrite E.
    - exists []. split; [now rewrite app_nil_r|constructor].
    - eexists. split; [reflexivity|]. constructor; [|constructor].
      left. now exists cfg. }
  assert (Hst : locals_ok (initial_locals t)).
  { split; [exact (fetch_return_truthy _ _ _ _ _ Hf)|reflexivity]. }
  destruct (while_loop fuel max_retries
              (loop_body url payload app max_retries timeout) (initial_locals t) w1)
    as [out w2] eqn:Hl.
  destruct (while_loop_footprint _ _ _ _ _ _ _ _ _ _ Hst Hl)
    as (Hs' & Hc' & (new' & Hsent' & Hall')).
  destruct Hfirst as (new & Hsent1 & Hall).
  assert (Hw2 :
    KRA_APPS w2 = KRA_APPS w
    /\ (forall k, k <> cache_key app -> cache w2 !! k = cache w !! k)
    /\ (exists new,
          sent w2 = sent w ++ new
          /\ Forall (expected_request (KRA_APPS w) app url payload timeout) new)).
  { split; [congruence|]. split.
    - intros k Hk. now rewrite Hc', Hc.
    - exists (new ++ new'). split.
      + now rewrite Hsent', Hsent1, app_assoc.
      + apply Forall_app. split; [exact Hall|]. now rewrite <- Hs. }
  destruct out as [st|e|st]; try (intros [= _ <-]; exact Hw2).
  pose proof (after_loop_world st w2) as Hw.
  destruct (after_loop st w2) as [r w3]. cbn [snd] in Hw. subst w3.
  intros [= _ <-]. exact Hw2.
Qed.



(** X19. What a call sends, at any point of its run: every request it adds
    to the record is either the token request of the app's own
    configuration or the POST to the given URL, with the given payload and
    timeout, certificate checks off, and a Bearer token that is not
    empty. *)
Theorem call_kra_endpoint_traffic fuel url payload app max_retries timeout w res w' :
  call_kra_endpoint fuel url payload app max_retries timeout w = (res, w') ->
  exists new,
    sent w' = sent w ++ new
    /\ Forall (expected_request (KRA_APPS w) app url payload timeout) new.
Proof.
  intros H. now destruct (call_footprint _ _ _ _ _ _ _ _ _ H) as (_ & _ & Hsent).
Qed.

Lemma call_kra_endpoint_traffic_witness :
  exists new,
    sent (snd (call_kra_endpoint 7 pin_url pin_payload app1 5 60 world_401_forever))
    = sent world_401_forever ++ new
    /\ Forall (expected_request (KRA_APPS world_401_forever) app1 pin_url
                 pin_payload 60) new.
Proof.
  apply (call_kra_endpoint_traffic 7 pin_url pin_payload app1 5 60
           world_401_forever
           (fst (call_kra_endpoint 7 pin_url pin_payload app1 5 60 world_401_forever))).
  apply surjective_pairing.
Defined.

(** ** [strip()] leaves nothing to strip *)

Lemma lstrip_nonspace c r : py_isspace c = false -> lstrip (c :: r) = c :: r.
Proof. intros H. cbn [lstrip]. now rewrite H. Qed.

Lemma lstrip_idem s : lstrip (lstrip s) = lstrip s.
Proof.
  destruct (lstrip_head s) as [E | (c & r & E & Hc)]; rewrite E;
    [reflexivity|now apply lstrip_nonspace].
Qed.

Lemma lstrip_snoc_nonspace c l :
  py_isspace c = false -> exists l', lstrip (l ++ [c]) = l' ++ [c].
Proof.
  intros Hc. induction l as [|x l IH]; cbn [app lstrip].
  - exists []. now rewrite Hc.
  - destruct (py_isspace x); [exact IH|]. now exists (x :: l).
Qed.

Lemma rstrip_idem s : rstrip (rstrip s) = rstrip s.
Proof. unfold rstrip. now rewrite rev_involutive, lstrip_idem. Qed.

Lemma lstrip_rstrip_lstrip s : lstrip (rstrip (lstrip s)) = rstrip (lstrip s).
Proof.
  destruct (lstrip_head s) as [E | (c & r & E & Hc)]; rewrite E; [reflexivity|].
  unfold rstrip. cbn [rev].
  destruct (lstrip_snoc_nonspace c (rev r) Hc) as [l' El]. rewrite El.
  rewrite rev_app_distr. cbn [rev app]. now apply lstrip_nonspace.
Qed.

Lemma strip_idem s : strip (strip s) = strip s.
Proof. unfold strip. now rewrite lstrip_rstrip_lstrip, rstrip_idem. Qed.

(** ** The views beyond the claims *)

Lemma AppChoiceField_choice d a :
  AppChoiceField d = Some a -> a = str "app1" \/ a = str "app2".
Proof.
  unfold AppChoiceField. destruct d as [v|]; [|intros [= <-]; now left].
  destruct v; try discriminate.
  unfold pystr_eqb.
  destruct (bool_decide (s = str "app1")) eqn:E1.
  - apply bool_decide_eq_true in E1. intros [= <-]. now left.
  - destruct (bool_decide (s = str "app2")) eqn:E2; [|discriminate].
    apply bool_decide_eq_true in E2. intros [= <-]. now right.
Qed.

Lemma TokenRequestSerializer_choice data a :
  TokenRequestSerializer data = Some a -> a = str "app1" \/ a = str "app2".
Proof.
  unfold TokenRequestSerializer. destruct data; try discriminate.
  intros H. apply (AppChoiceField_choice (dict_get (str "app") members)).
  exact H.
Qed.

Lemma CharField_valid float_str n d v :
  CharField float_str n d = Some v ->
  v <> [] /\ (length v <= n)%nat /\ strip v = v
  /\ existsb prohibited_char v = false.
Proof.
  unfold CharField. destruct d as [d|]; [|discriminate].
  destruct (field_text float_str d) as [s|]; [|discriminate].
  pose proof (strip_idem s) as Hidem.
  destruct (strip s) as [|c r] eqn:E; [discriminate|].
  destruct (length (c :: r) <=? n)%nat eqn:Hl; [|discriminate].
  destruct (existsb prohibited_char (c :: r)) eqn:Hp; [discriminate|].
  intros [= <-]. apply Nat.leb_le in Hl.
  repeat split; (assumption || discriminate).
Qed.

(** X20. A POST to /token/ that is not answered 200 changes no token: a
    body that does not validate is answered 400 with the world untouched,
    and a refresh that fails is answered 500 with the cache as it was, so
    the token cached before keeps being served. The view never sends a
    POST and never changes the settings. *)
Theorem GetTokenView_post_failure_keeps_cache data w resp w' :
  GetTokenView_post data w = (resp, w') ->
  (resp = BadRequest400 -> w' = w)
  /\ (forall e, resp = ServerError500 e -> cache w' = cache w)
  /\ KRA_APPS w' = KRA_APPS w
  /\ posts_sent w' = posts_sent w.
Proof.
  unfold GetTokenView_post.
  destruct (TokenRequestSerializer data) as [app|].
  2: { intros [= <- <-]. repeat split. }
  destruct (fetch_kra_token app true w) as [[t|e] w1] eqn:Hf;
    intros [= <- <-];
    destruct (fetch_footprint _ _ _ _ _ Hf) as (Hs & _ & _);
    destruct (fetch_posts_sent _ _ _ _ _ Hf) as [Hp _].
  - repeat split; (discriminate || assumption).
  - split; [discriminate|]. split; [|now split].
    intros e' _. exact (fetch_raise_cache _ _ _ _ _ Hf).
Qed.

Lemma GetTokenView_post_failure_keeps_cache_witness :
  let data := JObj [(str "app", JStr app1)] in
  let w' := snd (GetTokenView_post data world_T1_endpoint_down) in
  fst (GetTokenView_post data world_T1_endpoint_down)
    = ServerError500 (TokenRequestRejected (str "down"))
  /\ cache w' = cache world_T1_endpoint_down
  /\ KRA_APPS w' = KRA_APPS world_T1_endpoint_down
  /\ posts_sent w' = posts_sent world_T1_endpoint_down.
Proof.
  destruct (GetTokenView_post_failure_keeps_cache
              (JObj [(str "app", JStr app1)]) world_T1_endpoint_down
              (ServerError500 (TokenRequestRejected (str "down")))
              (snd (GetTokenView_post (JObj [(str "app", JStr app1)])
                      world_T1_endpoint_down)))
    as (_ & Hcache & Hsettings & Hposts); [reflexivity|].
  split; [reflexivity|]. split; [exact (Hcache _ eq_refl)|]. now split.
Defined.

(** X21. The token view acts for app1 or app2 only: whatever the body, it
    either answers 400 without doing anything or does exactly what
    [fetch_kra_token] does, forced, for one of the two; a body without an
    app member is treated as app1. *)
Theorem GetTokenView_post_app_choice data w :
  (GetTokenView_post data w = (BadRequest400, w)
   \/ exists app,
        (app = str "app1" \/ app = str "app2")
        /\ GetTokenView_post data w =
             match fetch_kra_token app true w with
             | (Return t, w') => (Ok200 t, w')
             | (Raise e, w') => (ServerError500 e, w')
             end)
  /\ (forall members, data = JObj members ->
        dict_get (str "app") members = None ->
        GetTokenView_post data w
        = GetTokenView_post (JObj [(str "app", JStr (str "app1"))]) w).
Proof.
  split.
  - unfold GetTokenView_post.
    destruct (TokenRequestSerializer data) as [app|] eqn:E; [|now left].
    right. exists app. split; [|reflexivity].
    now apply (TokenRequestSerializer_choice data).
  - intros members -> Hnone. unfold GetTokenView_post, TokenRequestSerializer.
    rewrite Hnone. reflexivity.
Qed.



(** X23. What [PinByIDRequestSerializer] lets through: data that
    validates has app1 or app2 as app, a TaxpayerType of 1 to 10
    characters and a TaxpayerID of 1 to 64 characters, both trimmed (no
    whitespace at either end) and free of NUL and surrogate characters. *)
Theorem PinByIDRequestSerializer_bounds float_str data v :
  PinByIDRequestSerializer float_str data = Some v ->
  (id_app v = str "app1" \/ id_app v = str "app2")
  /\ (TaxpayerType v <> [] /\ (length (TaxpayerType v) <= 10)%nat
      /\ strip (TaxpayerType v) = TaxpayerType v
      /\ existsb prohibited_char (TaxpayerType v) = false)
  /\ (TaxpayerID v <> [] /\ (length (TaxpayerID v) <= 64)%nat
      /\ strip (TaxpayerID v) = TaxpayerID v
      /\ existsb prohibited_char (TaxpayerID v) = false).
Proof.
  unfold PinByIDRequestSerializer. destruct data; try discriminate.
  destruct (AppChoiceField (dict_get (str "app") members)) as [a|] eqn:Ea;
    [|discriminate].
  destruct (CharField float_str 10 (dict_get (str "TaxpayerType") members))
    as [ttype|] eqn:Et; [|discriminate].
  destruct (CharField float_str 64 (dict_get (str "TaxpayerID") members))
    as [tid|] eqn:Ei; [|discriminate].
  intros [= <-]. cbn [id_app TaxpayerType TaxpayerID].
  split; [exact (AppChoiceField_choice _ _ Ea)|].
  split; [exact (CharField_valid _ _ _ _ Et)|exact (CharField_valid _ _ _ _ Ei)].
Qed.

Lemma PinByIDRequestSerializer_bounds_witness :
  let v := {| id_app := str "app1"; TaxpayerType := str "KE";
              TaxpayerID := str "12345678" |} in
  (id_app v = str "app1" \/ id_app v = str "app2")
  /\ (TaxpayerType v <> [] /\ (length (TaxpayerType v) <= 10)%nat
      /\ strip (TaxpayerType v) = TaxpayerType v
      /\ existsb prohibited_char (TaxpayerType v) = false)
  /\ (TaxpayerID v <> [] /\ (length (TaxpayerID v) <= 64)%nat
      /\ strip (TaxpayerID v) = TaxpayerID v
      /\ existsb prohibited_char (TaxpayerID v) = false).
Proof.
  apply (PinByIDRequestSerializer_bounds any_float_str id_request).
  reflexivity.
Defined.

(** X24. A KRAPIN that is missing, null, blank, or longer than 64
    characters once trimmed is answered 400 by the PIN view, before the
    settings are read and with the world untouched: no token is fetched
    and nothing is sent. *)
Theorem PinByPinView_post_bad_pin float_str fuel settings members w :
  (dict_get (str "KRAPIN") members = None
   \/ dict_get (str "KRAPIN") members = Some JNull
   \/ exists s, dict_get (str "KRAPIN") members = Some (JStr s)
                /\ (strip s = [] \/ (64 < length (strip s))%nat)) ->
  PinByPinView_post float_str fuel settings (JObj members) w = (Some Invalid400, w).
Proof.
  intros H. unfold PinByPinView_post, PinByPinRequestSerializer.
  assert (E : CharField float_str 64 (dict_get (str "KRAPIN") members) = None).
  { destruct H as [-> | [-> | (s & -> & Hs)]]; try reflexivity.
    unfold CharField. cbn [field_text].
    destruct Hs as [-> | Hlong]; [reflexivity|].
    destruct (strip s) as [|c r]; [reflexivity|].
    apply Nat.leb_gt in Hlong. now rewrite Hlong. }
  rewrite E. now destruct (AppChoiceField (dict_get (str "app") members)).
Qed.

Lemma PinByPinView_post_bad_pin_witness :
  PinByPinView_post any_float_str 5 urls_set
    (JObj [(str "KRAPIN", JStr (str "   "))]) world_T1_200
  = (Some Invalid400, world_T1_200).
Proof.
  apply (PinByPinView_post_bad_pin any_float_str 5 urls_set
           [(str "KRAPIN", JStr (str "   "))] world_T1_200).
  right. right. exists (str "   "). split; [reflexivity|]. left. reflexivity.
Defined.

(** X25. A PIN view answers 500 "... not configured" exactly when the
    body validates and its URL setting is missing or empty, and then it
    has stopped before [call_kra_endpoint]: no token is fetched, nothing
    is sent and the cache is not touched. No failure of the upstream is
    ever reported with that message. *)
Theorem Pin_views_not_configured float_str fuel settings data w m w' :
  (PinByIDView_post float_str fuel settings data w
   = (Some (NotConfigured500 m), w')
   <-> (exists v, PinByIDRequestSerializer float_str data = Some v)
       /\ configured (KRA_PIN_BY_ID_URL settings) = None
       /\ m = str "KRA_PIN_BY_ID_URL not configured" /\ w' = w)
  /\ (PinByPinView_post float_str fuel settings data w
      = (Some (NotConfigured500 m), w')
      <-> (exists v, PinByPinRequestSerializer float_str data = Some v)
          /\ configured (KRA_PIN_BY_PIN_URL settings) = None
          /\ m = str "KRA_PIN_BY_PIN_URL not configured" /\ w' = w).
Proof.
  split.
  - unfold PinByIDView_post.
    destruct (PinByIDRequestSerializer float_str data) as [v|].
    2: { split; [discriminate|]. now intros [[v Hv] _]. }
    destruct (configured (KRA_PIN_BY_ID_URL settings)) as [url|].
    + unfold forward.
      destruct (call_kra_endpoint _ _ _ _ _ _ _) as [[[j|e]|] w2];
        (split; [discriminate|]); now intros (_ & H & _).
    + split.
      * intros [= <- <-]. split; [now exists v|]. now repeat split.
      * now intros (_ & _ & -> & ->).
  - unfold PinByPinView_post.
    destruct (PinByPinRequestSerializer float_str data) as [v|].
    2: { split; [discriminate|]. now intros [[v Hv] _]. }
    destruct (configured (KRA_PIN_BY_PIN_URL settings)) as [url|].
    + unfold forward.
      destruct (call_kra_endpoint _ _ _ _ _ _ _) as [[[j|e]|] w2];
        (split; [discriminate|]); now intros (_ & H & _).
    + split.
      * intros [= <- <-]. split; [now exists v|]. now repeat split.
      * now intros (_ & _ & -> & ->).
Qed.

(** X26. A PIN lookup is bounded when the upstream never answers 401: for
    a body that validates and a configured URL, the view has answered
    after at most five passes of the loop, having sent at most five POSTs
    and at most one token request. *)
Theorem PinByPinView_post_bounded float_str fuel settings data w v url :
  PinByPinRequestSerializer float_str data = Some v ->
  configured (KRA_PIN_BY_PIN_URL settings) = Some url ->
  never_401 w ->
  (5 <= fuel)%nat ->
  exists resp w',
    PinByPinView_post float_str fuel settings data w = (Some resp, w')
    /\ resp <> Invalid400
    /\ (posts_sent w' <= posts_sent w + 5)%nat
    /\ (gets_sent w' <= S (gets_sent w))%nat.
Proof.
  intros Hv Hc H401 Hfuel.
  unfold PinByPinView_post, forward. rewrite Hv, Hc.
  destruct (call_bounded_without_401 fuel url
              (JObj [(str "KRAPIN", JStr (KRAPIN v))]) (pin_app v)
              default_max_retries default_timeout w H401)
    as (r & w' & E & P & G); [exact Hfuel|].
  rewrite E. change (Z.to_nat default_max_retries) with 5%nat in P.
  destruct r as [resp_json|e]; eexists _, _;
    (split; [reflexivity|]); (split; [discriminate|]); split; assumption.
Qed.

Lemma PinByPinView_post_bounded_witness :
  exists resp w',
    PinByPinView_post any_float_str 5 urls_set pin_request world_504_504_504_200
    = (Some resp, w')
    /\ resp <> Invalid400
    /\ (posts_sent w' <= posts_sent world_504_504_504_200 + 5)%nat
    /\ (gets_sent w' <= S (gets_sent world_504_504_504_200))%nat.
Proof.
  apply (PinByPinView_post_bounded any_float_str 5 urls_set pin_request
           world_504_504_504_200
           {| pin_app := str "app1"; KRAPIN := str "A000000000Z" |} pin_url).
  - reflexivity.
  - reflexivity.
  - intros k r. cbn [world_504_504_504_200 world post_replies].
    destruct (k <? 3)%nat; intros [= <-]; discriminate.
  - lia.
Defined.

(** X27. The ID view forwards validated fields only: every request it
    sends is either the token request of app1 or app2, or a POST to the
    configured URL whose payload is exactly the TaxpayerType and
    TaxpayerID of the validated data (trimmed, within their length
    limits; no other member of the body, not even app), with the default
    timeout of 60 seconds and a Bearer token that is not empty. *)
Theorem PinByIDView_post_traffic float_str fuel settings data w res w' :
  PinByIDView_post float_str fuel settings data w = (res, w') ->
  sent w' = sent w
  \/ exists v url new,
       PinByIDRequestSerializer float_str data = Some v
       /\ configured (KRA_PIN_BY_ID_URL settings) = Some url
       /\ (id_app v = str "app1" \/ id_app v = str "app2")
       /\ (length (TaxpayerType v) <= 10)%nat
       /\ (length (TaxpayerID v) <= 64)%nat
       /\ sent w' = sent w ++ new
       /\ Forall (expected_request (KRA_APPS w) (id_app v) url
                    (JObj [(str "TaxpayerType", JStr (TaxpayerType v));
                           (str "TaxpayerID", JStr (TaxpayerID v))]) 60) new.
Proof.
  unfold PinByIDView_post.
  destruct (PinByIDRequestSerializer float_str data) as [v|] eqn:Hv.
  2: { intros [= _ <-]. now left. }
  destruct (configured (KRA_PIN_BY_ID_URL settings)) as [url|] eqn:Hc.
  2: { intros [= _ <-]. now left. }
  unfold forward.
  destruct (call_kra_endpoint fuel url
              (JObj [(str "TaxpayerType", JStr (TaxpayerType v));
                     (str "TaxpayerID", JStr (TaxpayerID v))])
              (id_app v) default_max_retries default_timeout w)
    as [r w2] eqn:Hcall.
  destruct (call_footprint _ _ _ _ _ _ _ _ _ Hcall) as (_ & _ & new & Hs & Hall).
  intros Hres. assert (w' = w2) as ->.
  { destruct r as [[resp_json|e]|]; now injection Hres as _ <-. }
  right. exists v, url, new.
  split; [reflexivity|]. split; [reflexivity|].
  revert Hv. unfold PinByIDRequestSerializer. destruct data; try discriminate.
  destruct (AppChoiceField (dict_get (str "app") members)) as [a|] eqn:Ea;
    [|discriminate].
  destruct (CharField float_str 10 (dict_get (str "TaxpayerType") members))
    as [ttype|] eqn:Et; [|discriminate].
  destruct (CharField float_str 64 (dict_get (str "TaxpayerID") members))
    as [tid|] eqn:Ei; [|discriminate].
  intros [= <-]. cbn [id_app TaxpayerType TaxpayerID] in *.
  split; [exact (AppChoiceField_choice _ _ Ea)|].
  split; [exact (proj1 (proj2 (CharField_valid _ _ _ _ Et)))|].
  split; [exact (proj1 (proj2 (CharField_valid _ _ _ _ Ei)))|].
  split; assumption.
Qed.

Lemma PinByIDView_post_traffic_witness :
  let x := PinByIDView_post any_float_str 5 urls_set id_request world_T1_200 in
  sent (snd x) = sent world_T1_200
  \/ exists v url new,
       PinByIDRequestSerializer any_float_str id_request = Some v
       /\ configured (KRA_PIN_BY_ID_URL urls_set) = Some url
       /\ (id_app v = str "app1" \/ id_app v = str "app2")
       /\ (length (TaxpayerType v) <= 10)%nat
       /\ (length (TaxpayerID v) <= 64)%nat
       /\ sent (snd x) = sent world_T1_200 ++ new
       /\ Forall (expected_request (KRA_APPS world_T1_200) (id_app v) url
                    (JObj [(str "TaxpayerType", JStr (TaxpayerType v));
                           (str "TaxpayerID", JStr (TaxpayerID v))]) 60) new.
Proof.
  intros x.
  apply (PinByIDView_post_traffic any_float_str 5 urls_set id_request
           world_T1_200 (fst x) (snd x)).
  apply surjective_pairing.
Defined.


